(** * The authenticated API client of [src/services/api.js]

    A shallow embedding of the credential store ([tokenManager]), the axios
    request and response interceptors, the authentication facade ([authAPI])
    and the error helpers ([apiUtils]), followed by the properties the
    specification states about them.

    Conventions of the embedding:
    - [window.localStorage] is a finite map from strings to strings;
      [getItem] is lookup ([None] is JavaScript's [null]), [setItem] coerces
      its argument to a string and inserts, [removeItem] deletes.
    - JavaScript values that reach a truthiness test, a template literal or
      [setItem] are [jsval]s.
    - [JSON.stringify] and [JSON.parse] are platform functions; they are an
      interface ([JSON]) with the two laws the client relies on.
    - An [async] function is cut at its [await]s: a request in flight is a
      [task] whose constructor names the [await] it is suspended at, and
      [deliver] runs the code between one network answer and the next
      suspension (or the settled promise).  Several requests in flight are a
      list of tasks sharing one [world]; a schedule says which task receives
      which answer next. *)

From stdpp Require Import base strings gmap list.
From Stdlib Require Import ZArith Lia.

Local Open Scope string_scope.

(** ** JavaScript values, truthiness and string coercion *)

(** The values the client coerces or tests: tokens and messages are strings
    on the wire, a missing property is [undefined], [getItem] of a missing
    key is [null]. *)
Inductive jsval :=
  | VUndefined
  | VNull
  | VStr (s : string).

(** [String(v)], as applied by [setItem] and by template literals. *)
Definition to_string (v : jsval) : string :=
  match v with
  | VUndefined => "undefined"
  | VNull => "null"
  | VStr s => s
  end.

(** Truthiness of a string: every string but the empty one. *)
Definition truthy_str (s : string) : bool :=
  match s with
  | EmptyString => false
  | String _ _ => true
  end.

Definition truthy (v : jsval) : bool :=
  match v with
  | VStr s => truthy_str s
  | _ => false
  end.

(** What [localStorage.getItem] returns, seen as a JavaScript value. *)
Definition item_val (o : option string) : jsval :=
  match o with
  | Some s => VStr s
  | None => VNull
  end.

(** [a || b] *)
Definition js_or (a b : jsval) : jsval := if truthy a then a else b.

(** ** JSON, the platform codec *)

Class JSON (J : Type) := {
  jnull : J;
  stringify : J → string;
  parse : string → option J;   (* [None]: [JSON.parse] throws a SyntaxError *)
  parse_stringify : ∀ j, parse (stringify j) = Some j;
  parse_empty : parse "" = None;
}.

(** A small codec: [null] and string literals without escapes, enough to
    run the client on concrete profiles. *)
Module QuotedJSON.

Definition quote : string := String (Ascii.ascii_of_nat 34) EmptyString.

Fixpoint strip_last (s : string) : option string :=
  match s with
  | EmptyString => None
  | String c EmptyString =>
      if Ascii.eqb c (Ascii.ascii_of_nat 34) then Some EmptyString else None
  | String c rest => String c <$> strip_last rest
  end.

Definition qstringify (j : option string) : string :=
  match j with
  | None => "null"
  | Some s => quote ++ s ++ quote
  end.

Definition qparse (s : string) : option (option string) :=
  if String.eqb s "null" then Some None
  else match s with
       | String c rest =>
           if Ascii.eqb c (Ascii.ascii_of_nat 34)
           then Some <$> strip_last rest else None
       | EmptyString => None
       end.

End QuotedJSON.

(** ** Errors and results of synchronous code *)

Inductive exn :=
  | TypeError (msg : string)
  | SyntaxError (msg : string).

Inductive result (A : Type) :=
  | Ok (a : A)
  | Throw (e : exn).
Arguments Ok {A} a.
Arguments Throw {A} e.

(** ** The credential store *)

Definition TOKEN_KEY : string := "ai_agent_token".
Definition REFRESH_TOKEN_KEY : string := "ai_agent_refresh_token".
Definition USER_KEY : string := "ai_agent_user".

Definition API_BASE_URL : string := "http://localhost:5000/api".

Abbreviation storage := (gmap string string).

Definition getItem (k : string) (ls : storage) : option string := ls !! k.
Definition setItem (k : string) (v : jsval) (ls : storage) : storage :=
  <[k := to_string v]> ls.
Definition removeItem (k : string) (ls : storage) : storage := delete k ls.

Module tokenManager.
Section store.
Context {J : Type} `{!JSON J}.

Definition getToken (ls : storage) : option string := getItem TOKEN_KEY ls.
Definition setToken (token : jsval) (ls : storage) : storage :=
  setItem TOKEN_KEY token ls.
Definition removeToken (ls : storage) : storage := removeItem TOKEN_KEY ls.

Definition getRefreshToken (ls : storage) : option string :=
  getItem REFRESH_TOKEN_KEY ls.
Definition setRefreshToken (token : jsval) (ls : storage) : storage :=
  setItem REFRESH_TOKEN_KEY token ls.
Definition removeRefreshToken (ls : storage) : storage :=
  removeItem REFRESH_TOKEN_KEY ls.

(** [user ? JSON.parse(user) : null] *)
Definition getUser (ls : storage) : result J :=
  match getItem USER_KEY ls with
  | Some user =>
      if truthy_str user then
        match parse user with
        | Some j => Ok j
        | None => Throw (SyntaxError "JSON.parse")
        end
      else Ok jnull
  | None => Ok jnull
  end.

(** [JSON.stringify(undefined)] is [undefined], which [setItem] then
    coerces; [user] is [None] for [undefined]. *)
Definition json_stringify (user : option J) : jsval :=
  match user with
  | Some j => VStr (stringify j)
  | None => VUndefined
  end.

Definition setUser (user : option J) (ls : storage) : storage :=
  setItem USER_KEY (json_stringify user) ls.
Definition removeUser (ls : storage) : storage := removeItem USER_KEY ls.

Definition clearAll (ls : storage) : storage :=
  removeItem USER_KEY (removeItem REFRESH_TOKEN_KEY (removeItem TOKEN_KEY ls)).

End store.
End tokenManager.

(** ** Requests, responses and axios errors *)

Record config := {
  url : string;
  method : string;
  headers : gmap string string;
  payload : string;
  _retry : bool;             (* [undefined] reads as [false] *)
}.

Definition set_header (k v : string) (c : config) : config :=
  {| url := url c; method := method c; headers := <[k := v]> (headers c);
     payload := payload c; _retry := _retry c |}.

Definition set_retry (b : bool) (c : config) : config :=
  {| url := url c; method := method c; headers := headers c;
     payload := payload c; _retry := b |}.

(** How often a header name occurs among the headers of a request. *)
Definition header_count (k : string) (c : config) : nat :=
  length (filter (λ kv, kv.1 = k) (map_to_list (headers c))).

Definition bearer (token : string) : string := "Bearer " ++ token.

Section client.
Context {J : Type} `{!JSON J}.

(** The properties of a decoded response body that the client reads; a
    property that is missing is [VUndefined] ([None] for [user]). *)
Record body := {
  access_token : jsval;
  refresh_token : jsval;
  user : option J;
  message : jsval;
  details : jsval;
}.

Record response := {
  status : Z;
  data : option body;      (* [None]: the body decodes to [null] *)
}.

(** The rejection reasons that travel through the pipeline: an axios
    error ([config], [response], whether [request] is set, [message]) or
    an exception raised by the client's own code. *)
Inductive js_error :=
  | AxiosError (cfg : config) (resp : option response)
               (request : bool) (msg : string)
  | Thrown (e : exn).

(** What the network does with one call. *)
Inductive net_outcome :=
  | Responded (st : Z) (d : option body)
  | NoResponse (msg : string).   (* network failure, or the 10 s timeout *)

(** axios settles a call: a status in [200, 300) fulfils the promise,
    any other status and every missing response rejects it. *)
Definition settle (cfg : config) (o : net_outcome) : response + js_error :=
  match o with
  | Responded st d =>
      let r := {| status := st; data := d |} in
      if (200 <=? st)%Z && (st <? 300)%Z then inl r
      else inr (AxiosError cfg (Some r) true
                  ("Request failed with status code"))
  | NoResponse msg => inr (AxiosError cfg None true msg)
  end.

(** ** The world the client runs in *)

Inductive call :=
  | ApiCall (cfg : config)        (* sent through the [api] instance *)
  | RefreshCall (cfg : config).   (* [axios.post] to [/auth/refresh] *)

Record world := {
  localStorage : storage;
  (** every assignment to [window.location.href], oldest first, with the
      store as it was at that moment *)
  location : list (string * storage);
  (** every call put on the wire, oldest first *)
  wire : list call;
}.

Definition with_storage (f : storage → storage) (w : world) : world :=
  {| localStorage := f (localStorage w); location := location w;
     wire := wire w |}.

Definition set_href (href : string) (w : world) : world :=
  {| localStorage := localStorage w;
     location := location w ++ [(href, localStorage w)];
     wire := wire w |}.

Definition send (c : call) (w : world) : world :=
  {| localStorage := localStorage w; location := location w;
     wire := wire w ++ [c] |}.

Definition is_refresh (c : call) : bool :=
  match c with RefreshCall _ => true | ApiCall _ => false end.

Definition refresh_calls (w : world) : nat :=
  length (filter (λ c, is_refresh c = true) (wire w)).

Definition api_calls (w : world) : nat :=
  length (filter (λ c, is_refresh c = false) (wire w)).

Definition signals (w : world) : nat := length (location w).

(** ** Request interceptor (lines 49-60) *)

Definition request_interceptor (ls : storage) (cfg : config) : config :=
  match tokenManager.getToken ls with
  | Some token =>
      if truthy_str token
      then set_header "Authorization" (bearer token) cfg
      else cfg
  | None => cfg
  end.

(** ** A request in flight *)

Inductive task :=
  | AwaitResponse (cfg : config)
      (* [api(cfg)] is on the wire *)
  | AwaitRefresh (originalRequest refreshRequest : config)
      (* the error handler is suspended at [await axios.post(...)] *)
  | Resolved (r : response)
  | Rejected (e : js_error).

(** [api(config)]: the request interceptor runs, the call goes out.  axios
    hands the interceptor the fields of the config it was given, [_retry]
    and the headers included, and the resulting config is the one of the
    call and of its error ([error.config]).  The instance defaults
    ([baseURL], [timeout], [Content-Type]) play no part in what follows and
    are left out; nothing else runs between the call of [api] and the
    interceptor. *)
Definition api (w : world) (cfg : config) : world * task :=
  let cfg := request_interceptor (localStorage w) cfg in
  (send (ApiCall cfg) w, AwaitResponse cfg).

(** The request of [axios.post(`${API_BASE_URL}/auth/refresh`, {},
    {headers: {Authorization: `Bearer ${refreshToken}`}})]. *)
Definition refresh_request (refreshToken : jsval) : config :=
  {| url := API_BASE_URL ++ "/auth/refresh"; method := "post";
     headers := {["Authorization" := bearer (to_string refreshToken)]};
     payload := "{}"; _retry := false |}.

Definition is_401 (resp : option response) : bool :=
  match resp with
  | Some r => (status r =? 401)%Z
  | None => false
  end.

(** [tokenManager.clearAll(); window.location.href = '/login';] *)
Definition end_session (w : world) : world :=
  set_href "/login" (with_storage tokenManager.clearAll w).

(** ** Response interceptor, error handler (lines 65-100) *)

(** From the rejected call up to the first [await] or the [return]. *)
Definition on_rejected (w : world) (error : js_error) : world * task :=
  match error with
  | AxiosError originalRequest resp req msg =>
      if is_401 resp && negb (_retry originalRequest) then
        (* [originalRequest] is [error.config]: the flag shows in both *)
        let originalRequest := set_retry true originalRequest in
        let error := AxiosError originalRequest resp req msg in
        match tokenManager.getRefreshToken (localStorage w) with
        | Some refreshToken =>
            if truthy_str refreshToken then
              let rq := refresh_request (VStr refreshToken) in
              (send (RefreshCall rq) w, AwaitRefresh originalRequest rq)
            else (end_session w, Rejected error)
        | None => (end_session w, Rejected error)
        end
      else (w, Rejected error)
  | Thrown _ => (w, Rejected error)
  end.

(** The [catch (refreshError)] block. *)
Definition on_refresh_failed (w : world) (refreshError : js_error)
  : world * task :=
  (end_session w, Rejected refreshError).

(** From the answer of the refresh call to the retried request (the rest
    of the [try] block), or into the [catch] block. *)
Definition on_refresh_settled (w : world)
    (originalRequest refreshRequest : config) (o : net_outcome)
  : world * task :=
  match settle refreshRequest o with
  | inl response =>
      match data response with
      | Some d =>
          let token := access_token d in
          let w := with_storage (tokenManager.setToken token) w in
          let originalRequest :=
            set_header "Authorization" (bearer (to_string token))
              originalRequest in
          api w originalRequest
      | None =>
          on_refresh_failed w
            (Thrown (TypeError "Cannot destructure property access_token"))
      end
  | inr refreshError => on_refresh_failed w refreshError
  end.

(** One network answer reaches one task. *)
Definition deliver (w : world) (t : task) (o : net_outcome) : world * task :=
  match t with
  | AwaitResponse cfg =>
      match settle cfg o with
      | inl response => (w, Resolved response)
      | inr error => on_rejected w error
      end
  | AwaitRefresh originalRequest refreshRequest =>
      on_refresh_settled w originalRequest refreshRequest o
  | Resolved _ | Rejected _ => (w, t)
  end.

(** ** Several requests in flight *)

Record system := {
  shared : world;
  tasks : list task;
}.

Definition sys_deliver (s : system) (ev : nat * net_outcome) : system :=
  match tasks s !! ev.1 with
  | Some t =>
      let '(w, t') := deliver (shared s) t ev.2 in
      {| shared := w; tasks := <[ev.1 := t']> (tasks s) |}
  | None => s
  end.

Definition run (s : system) (schedule : list (nat * net_outcome)) : system :=
  foldl sys_deliver s schedule.

(** [n] requests started one after the other, none answered yet. *)
Fixpoint start (w : world) (cfgs : list config) : system :=
  match cfgs with
  | [] => {| shared := w; tasks := [] |}
  | c :: cfgs =>
      let '(w, t) := api w c in
      let s := start w cfgs in
      {| shared := shared s; tasks := t :: tasks s |}
  end.

End client.

Arguments body J : clear implicits.
Arguments response J : clear implicits.
Arguments js_error J : clear implicits.
Arguments net_outcome J : clear implicits.
Arguments task J : clear implicits.
Arguments system J : clear implicits.

(** ** The authentication facade (lines 104-143) *)

Module authAPI.
Section facade.
Context {J : Type} `{!JSON J}.

(** [api.post('/auth/login', { username, password })] *)
Definition login_request (credentials : string) : config :=
  {| url := "/auth/login"; method := "post"; headers := ∅;
     payload := credentials; _retry := false |}.

(** [login], after its [await]: destructure the body, write the three
    entries, return the body. *)
Definition login_resolved (w : world) (r : response J)
  : world * result (body J) :=
  match data r with
  | Some d =>
      let w := with_storage (tokenManager.setToken (access_token d)) w in
      let w :=
        with_storage (tokenManager.setRefreshToken (refresh_token d)) w in
      let w := with_storage (tokenManager.setUser (user d)) w in
      (w, Ok d)
  | None => (w, Throw (TypeError "Cannot destructure property access_token"))
  end.

Definition logout_request : config :=
  {| url := "/auth/logout"; method := "post"; headers := ∅;
     payload := ""; _retry := false |}.

(** [logout], after its [await]: the [finally] block runs whether the
    call was fulfilled or rejected. *)
Definition logout_settled (w : world) (answer : response J + js_error J)
  : world :=
  with_storage tokenManager.clearAll w.

(** [refreshToken], up to its [await]: the stored refresh token, or
    [null], goes into the template literal. *)
Definition refreshToken_request (w : world) : config :=
  refresh_request (item_val (tokenManager.getRefreshToken (localStorage w))).

(** [refreshToken], after its [await]. *)
Definition refreshToken_resolved (w : world) (r : response J)
  : world * result (body J) :=
  match data r with
  | Some d =>
      (with_storage (tokenManager.setToken (access_token d)) w, Ok d)
  | None => (w, Throw (TypeError "Cannot destructure property access_token"))
  end.

End facade.
End authAPI.

(** ** Error helpers (lines 302-335) *)

Module apiUtils.
Section utils.
Context {J : Type} `{!JSON J}.

Record error_info := {
  info_status : Z;
  info_message : jsval;
  info_details : jsval;
}.

Definition exn_message (e : exn) : string :=
  match e with
  | TypeError msg => msg
  | SyntaxError msg => msg
  end.

Definition handleError (error : js_error J) : result error_info :=
  match error with
  | AxiosError _ (Some r) _ _ =>
      match data r with
      | Some d =>
          Ok {| info_status := status r;
                info_message := js_or (message d) (VStr "An error occurred");
                info_details := js_or (details d) VNull |}
      | None => Throw (TypeError "Cannot read properties of null")
      end
  | AxiosError _ None true _ =>
      Ok {| info_status := 0;
            info_message :=
              VStr "Network error - please check your connection";
            info_details := VNull |}
  | AxiosError _ None false msg =>
      Ok {| info_status := 0;
            info_message :=
              js_or (VStr msg) (VStr "An unexpected error occurred");
            info_details := VNull |}
  | Thrown e =>
      Ok {| info_status := 0;
            info_message :=
              js_or (VStr (exn_message e))
                    (VStr "An unexpected error occurred");
            info_details := VNull |}
  end.

(** [!!tokenManager.getToken()] *)
Definition isAuthenticated (ls : storage) : bool :=
  truthy (item_val (tokenManager.getToken ls)).

Definition getCurrentUser (ls : storage) : result J :=
  tokenManager.getUser ls.

End utils.
End apiUtils.

(** ** Vocabulary of the specification *)

(** The three entries of the credential record, as stored. *)
Definition all_present (ls : storage) : Prop :=
  is_Some (ls !! TOKEN_KEY) ∧ is_Some (ls !! REFRESH_TOKEN_KEY)
  ∧ is_Some (ls !! USER_KEY).

Definition all_absent (ls : storage) : Prop :=
  ls !! TOKEN_KEY = None ∧ ls !! REFRESH_TOKEN_KEY = None
  ∧ ls !! USER_KEY = None.

(** The persisted record is whole or gone. *)
Definition all_or_nothing (ls : storage) : Prop :=
  all_present ls ∨ all_absent ls.

Section contract.
Context {J : Type} `{!JSON J}.



(** The axios error of a call answered with a status outside 2xx. *)
Definition status_error (cfg : config) (st : Z) (od : option (body J))
  : js_error J :=
  AxiosError cfg (Some {| status := st; data := od |}) true
    "Request failed with status code".

(** The answers of one request, delivered in order. *)
Definition answers (wt : world * task J) (os : list (net_outcome J))
  : world * task J :=
  foldl (λ wt o, deliver wt.1 wt.2 o) wt os.

(** Several calls put on the wire at once. *)
Definition sends (cs : list call) (w : world) : world :=
  {| localStorage := localStorage w; location := location w;
     wire := wire w ++ cs |}.

(** Answering every task once, in the order the tasks were started. *)
Definition in_order (os : list (net_outcome J))
  : list (nat * net_outcome J) :=
  zip (seq 0 (length os)) os.

Fixpoint sweep (w : world) (ts : list (task J)) (os : list (net_outcome J))
  : world * list (task J) :=
  match ts, os with
  | t :: ts, o :: os =>
      let r := deliver w t o in
      let r' := sweep r.1 ts os in
      (r'.1, r.2 :: r'.2)
  | _, _ => (w, ts)
  end.

Definition unauthorized (od : option (body J)) : net_outcome J :=
  Responded 401 od.

Definition refreshed (d : body J) : net_outcome J :=
  Responded 200 (Some d).

(** An answer of the refresh call that is not a 2xx status with a body. *)
Definition refresh_fails (o : net_outcome J) : Prop :=
  ∀ st d, o = Responded st (Some d) → ¬ (200 ≤ st < 300)%Z.

Definition settled (t : task J) : Prop :=
  match t with
  | Resolved _ | Rejected _ => True
  | AwaitResponse _ | AwaitRefresh _ _ => False
  end.

(** The state of [cfgs] requests, all started at [w], once each of them
    has been answered with a 401. *)
Definition all_unauthorized (w : world) (cfgs : list config) : system J :=
  run (start w cfgs)
    (in_order (replicate (length cfgs) (unauthorized None))).

(** C1 as the specification words it: however many requests fail on the
    same expired credential, one refresh call is made in total. *)
Definition one_refresh_for_all : Prop :=
  ∀ (w : world) (cfgs : list config) (rt : string),
    cfgs ≠ [] → Forall (λ c, _retry c = false) cfgs →
    localStorage w !! REFRESH_TOKEN_KEY = Some rt → rt ≠ "" →
    refresh_calls (shared (all_unauthorized w cfgs)) = refresh_calls w + 1.

(** C4 as the specification words it: however many requests run into the
    failed refresh, the session-ended signal fires once. *)
Definition one_signal_per_session : Prop :=
  ∀ (w : world) (cfgs : list config) (rt : string)
    (os : list (net_outcome J)),
    cfgs ≠ [] → Forall (λ c, _retry c = false) cfgs →
    localStorage w !! REFRESH_TOKEN_KEY = Some rt → rt ≠ "" →
    length os = length cfgs → Forall refresh_fails os →
    signals (shared (run (all_unauthorized w cfgs) (in_order os)))
    = signals w + 1.

(** C5 as the specification words it: whatever the requests in flight
    and whatever answers arrive, a record that was whole or gone is whole
    or gone after every step. *)
Definition record_never_partial : Prop :=
  ∀ (w : world) (cfgs : list config)
    (schedule : list (nat * net_outcome J)),
    all_or_nothing (localStorage w) →
    all_or_nothing (localStorage (shared (run (start w cfgs) schedule))).

(** With one request in flight, a pending refresh call means the record
    was whole when the call went out, and nothing has touched it since. *)
Definition whole_while_refreshing (wt : world * task J) : Prop :=
  all_or_nothing (localStorage wt.1)
  ∧ match wt.2 with
    | AwaitRefresh _ _ => all_present (localStorage wt.1)
    | _ => True
    end.

End contract.

Arguments one_refresh_for_all J : clear implicits.
Arguments one_signal_per_session J : clear implicits.
Arguments record_never_partial J : clear implicits.

(** ** Sample data *)

Definition sample_request : config :=
  {| url := "/tasks"; method := "get";
     headers := {["Content-Type" := "application/json"]};
     payload := ""; _retry := false |}.

Definition sample_body (token : string) : body (option string) :=
  {| access_token := VStr token; refresh_token := VUndefined;
     user := None; message := VUndefined; details := VUndefined |}.

Definition sample_world (ls : storage) : world :=
  {| localStorage := ls; location := []; wire := [] |}.

Definition sample_store : storage :=
  <[USER_KEY := "null"]>
    (<[REFRESH_TOKEN_KEY := "r0"]> {[TOKEN_KEY := "t0"]}).

(** ** Whole facade calls *)

Section calls.
Context {J : Type} `{!JSON J}.

(** What the caller of an [async] function holds once a number of answers
    have come in. *)
Inductive promise (A : Type) :=
  | Pending
  | Fulfilled (a : A)
  | RejectedWith (e : js_error J).

(** [const response = await api.get(...); return response.data;], the
    body of every facade of [authAPI], [tasksAPI], [chatAPI] and
    [telegramAPI] but [login], [logout] and [refreshToken]. *)
Definition facade (w : world) (cfg : config) (os : list (net_outcome J))
  : world * promise (option (body J)) :=
  let r := answers (api w cfg) os in
  match r.2 with
  | Resolved resp => (r.1, Fulfilled _ (data resp))
  | Rejected e => (r.1, RejectedWith _ e)
  | AwaitResponse _ | AwaitRefresh _ _ => (r.1, Pending _)
  end.

Definition getCurrentUser_request : config :=
  {| url := "/auth/me"; method := "get"; headers := ∅; payload := "";
     _retry := false |}.

Definition authAPI_getCurrentUser (w : world) (os : list (net_outcome J))
  : world * promise (option (body J)) :=
  facade w getCurrentUser_request os.

(** [authAPI.login] (lines 105-114), from the call to the returned
    promise. *)
Definition authAPI_login (w : world) (credentials : string)
    (os : list (net_outcome J)) : world * promise (body J) :=
  let r := answers (api w (authAPI.login_request credentials)) os in
  match r.2 with
  | Resolved resp =>
      let r' := authAPI.login_resolved r.1 resp in
      match r'.2 with
      | Ok d => (r'.1, Fulfilled _ d)
      | Throw e => (r'.1, RejectedWith _ (Thrown e))
      end
  | Rejected e => (r.1, RejectedWith _ e)
  | AwaitResponse _ | AwaitRefresh _ _ => (r.1, Pending _)
  end.

(** [authAPI.logout] (lines 116-124): the [catch] block logs and swallows
    the rejection, the [finally] block clears the store. *)
Definition authAPI_logout (w : world) (os : list (net_outcome J))
  : world * promise unit :=
  let r := answers (api w authAPI.logout_request) os in
  match r.2 with
  | Resolved resp => (authAPI.logout_settled r.1 (inl resp), Fulfilled _ ())
  | Rejected e => (authAPI.logout_settled r.1 (inr e), Fulfilled _ ())
  | AwaitResponse _ | AwaitRefresh _ _ => (r.1, Pending _)
  end.

(** [authAPI.refreshToken] (lines 131-143): a plain [axios.post], outside
    the interceptors, with no [try]. *)
Definition authAPI_refreshToken (w : world) (o : net_outcome J)
  : world * promise (body J) :=
  let rq := authAPI.refreshToken_request w in
  let w := send (RefreshCall rq) w in
  match settle rq o with
  | inl resp =>
      let r' := authAPI.refreshToken_resolved w resp in
      match r'.2 with
      | Ok d => (r'.1, Fulfilled _ d)
      | Throw e => (r'.1, RejectedWith _ (Thrown e))
      end
  | inr e => (w, RejectedWith _ e)
  end.

(** What one task may still put on the wire, and how often it may still
    assign [/login], before it settles. *)
Definition refresh_budget (t : task J) : nat :=
  match t with
  | AwaitResponse c | AwaitRefresh c _ => if _retry c then 0 else 1
  | Resolved _ | Rejected _ => 0
  end.

Definition send_budget (t : task J) : nat :=
  match t with
  | AwaitResponse c => if _retry c then 0 else 1
  | AwaitRefresh c _ => if _retry c then 1 else 2
  | Resolved _ | Rejected _ => 0
  end.

Definition signal_budget (t : task J) : nat :=
  match t with
  | AwaitResponse c => if _retry c then 0 else 1
  | AwaitRefresh _ _ => 1
  | Resolved _ | Rejected _ => 0
  end.

(** How many answers a task can take before it has settled. *)
Definition answers_left (t : task J) : nat :=
  match t with
  | AwaitResponse c => if _retry c then 1 else 3
  | AwaitRefresh c _ => if _retry c then 2 else 4
  | Resolved _ | Rejected _ => 0
  end.

(** Whether an answer, reaching the system in state [s], makes its task
    send a refresh call: a 401 to a request without the retry flag while
    [getRefreshToken()] is truthy (lines 68-74). *)
Definition triggers_refresh (s : system J) (ev : nat * net_outcome J) : bool :=
  match tasks s !! ev.1, ev.2 with
  | Some (AwaitResponse c), Responded st _ =>
      (st =? 401)%Z && negb (_retry c)
      && truthy (item_val
                   (tokenManager.getRefreshToken (localStorage (shared s))))
  | _, _ => false
  end.

(** Whether an answer, reaching the system in state [s], makes its task
    end the session: a 401 to a request without the retry flag while
    [getRefreshToken()] is falsy (lines 92-96), or any answer to a refresh
    call but a 2xx response with a body (lines 86-91). *)
Definition ends_session (s : system J) (ev : nat * net_outcome J) : bool :=
  match tasks s !! ev.1 with
  | Some (AwaitResponse c) =>
      match ev.2 with
      | Responded st _ =>
          (st =? 401)%Z && negb (_retry c)
          && negb (truthy
                     (item_val
                        (tokenManager.getRefreshToken
                           (localStorage (shared s)))))
      | NoResponse _ => false
      end
  | Some (AwaitRefresh _ _) =>
      match ev.2 with
      | Responded st (Some _) => negb ((200 <=? st)%Z && (st <? 300)%Z)
      | Responded _ None | NoResponse _ => true
      end
  | Some (Resolved _) | Some (Rejected _) | None => false
  end.

(** An assignment of [/login] made on a store that reads as
    unauthenticated. *)
Definition cleared_login (hs : string * storage) : Prop :=
  hs.1 = "/login" ∧ all_absent hs.2
  ∧ apiUtils.isAuthenticated hs.2 = false.

(** How many answers of a schedule satisfy [p] at the moment they arrive. *)
Fixpoint count_events (p : system J → nat * net_outcome J → bool)
    (s : system J) (schedule : list (nat * net_outcome J)) : nat :=
  match schedule with
  | [] => 0
  | ev :: schedule =>
      (if p s ev then 1 else 0) + count_events p (sys_deliver s ev) schedule
  end.

(** A count of the world plus what the tasks in flight may still add. *)
Definition potential (count : world → nat) (budget : task J → nat)
    (s : system J) : nat :=
  count (shared s) + sum_list_with budget (tasks s).

End calls.

Arguments promise J A : clear implicits.
Arguments Pending {J A}.
Arguments Fulfilled {J A} a.
Arguments RejectedWith {J A} e.

#[export] Instance jsval_eq_dec : EqDecision jsval.
Proof. solve_decision. Defined.

(** Two tasks as the task endpoints return them, reduced to the properties
    the dashboard reads. *)
Definition sample_task (id status : string) : gmap string jsval :=
  <["id" := VStr id]> {["status" := VStr status]}.

(** ** Route guards ([App.jsx], lines 14-33 and 75-124) *)

Inductive page := LoginPage | DashboardPage | NotFoundPage.

Inductive element :=
  | Render (p : page)
  | Navigate (to : string).       (* [<Navigate to=... replace />] *)

(** The four [<Route>]s of the application. *)
Inductive route := LoginRoute | DashboardRoute | RootRoute | CatchAllRoute.

Definition ProtectedRoute (ls : storage) (children : element) : element :=
  let isAuthenticated := apiUtils.isAuthenticated ls in
  if negb isAuthenticated then Navigate "/login" else children.

Definition PublicRoute (ls : storage) (children : element) : element :=
  let isAuthenticated := apiUtils.isAuthenticated ls in
  if isAuthenticated then Navigate "/dashboard" else children.

Definition route_element (ls : storage) (r : route) : element :=
  match r with
  | LoginRoute => PublicRoute ls (Render LoginPage)
  | DashboardRoute => ProtectedRoute ls (Render DashboardPage)
  | RootRoute =>
      if apiUtils.isAuthenticated ls
      then Navigate "/dashboard" else Navigate "/login"
  | CatchAllRoute => Render NotFoundPage
  end.

Section router.
(** The router's choice of a [<Route>] for a location is the platform's;
    [matches] stands for it. *)
Variable matches : string → route.

(** Render a route and follow [<Navigate>] elements, at most [hops] of
    them. *)
Fixpoint follow (hops : nat) (ls : storage) (r : route) : option page :=
  match route_element ls r with
  | Render p => Some p
  | Navigate to =>
      match hops with
      | 0 => None
      | S hops => follow hops ls (matches to)
      end
  end.

End router.

(** A router that matches the literal paths of the four routes. *)
Definition literal_matches (path : string) : route :=
  if String.eqb path "/login" then LoginRoute
  else if String.eqb path "/dashboard" then DashboardRoute
  else if String.eqb path "/" then RootRoute
  else CatchAllRoute.

(** ** The task list of the dashboard ([Dashboard.jsx], lines 89-119) *)

Section task_list.
(** [V]: the primitive values that tasks hold and that [===] compares by
    value; [undefined] is what reading a missing property gives. *)
Context {V : Type} `{EqDecision V} (undefined : V).

Definition prop (k : string) (o : gmap string V) : V :=
  default undefined (o !! k).

(** [{ ...task, ...updates }] *)
Definition spread (task updates : gmap string V) : gmap string V :=
  updates ∪ task.

(** The updater handed to [setTasks] by [handleTaskUpdate]:
    [prev.map(task => task.id === taskId ? { ...task, ...updates } : task)]. *)
Definition update_tasks (taskId : V) (updates : gmap string V)
    (prev : list (gmap string V)) : list (gmap string V) :=
  (λ task, if decide (prop "id" task = taskId)
           then spread task updates else task) <$> prev.

(** [tasks.filter(task => task.status === status)] *)
Definition getTasksByStatus (tasks : list (gmap string V)) (status : V)
  : list (gmap string V) :=
  filter (λ task, prop "status" task = status) tasks.

End task_list.

(** ** Colour tables ([apiUtils], lines 369-386) *)

(** The members every object literal inherits; all of them are functions or
    objects, hence truthy. *)
Definition Object_prototype : list string :=
  ["constructor"; "hasOwnProperty"; "isPrototypeOf"; "propertyIsEnumerable";
   "toLocaleString"; "toString"; "valueOf"; "__proto__";
   "__defineGetter__"; "__defineSetter__"; "__lookupGetter__";
   "__lookupSetter__"].

(** What [table[key] || fallback] evaluates to: a string of the table, or a
    member inherited from [Object.prototype]. *)
Inductive looked_up :=
  | Own (s : string)
  | Inherited (name : string).

Definition lookup_or (table : gmap string string) (key : jsval)
    (fallback : string) : looked_up :=
  match table !! to_string key with
  | Some s => if truthy_str s then Own s else Own fallback
  | None =>
      if bool_decide (to_string key ∈ Object_prototype)
      then Inherited (to_string key) else Own fallback
  end.

Definition priority_colors : gmap string string :=
  <["urgent" := "text-red-600 bg-red-50"]>
    (<["high" := "text-orange-600 bg-orange-50"]>
       (<["medium" := "text-yellow-600 bg-yellow-50"]>
          {["low" := "text-green-600 bg-green-50"]})).

Definition status_colors : gmap string string :=
  <["pending" := "text-gray-600 bg-gray-50"]>
    (<["in_progress" := "text-blue-600 bg-blue-50"]>
       {["completed" := "text-green-600 bg-green-50"]}).

Definition getPriorityColor (priority : jsval) : looked_up :=
  lookup_or priority_colors priority
    (default "" (priority_colors !! "medium")).

Definition getStatusColor (status : jsval) : looked_up :=
  lookup_or status_colors status (default "" (status_colors !! "pending")).

(** ** The login form ([Login.jsx], lines 16-61) *)

Record formData := {
  username : string;
  password : string;
}.

Record Login_state := {
  form : formData;
  loading : bool;
  error : jsval;
  navigated : list string;     (* calls of [navigate], oldest first *)
}.

Definition setLoading (b : bool) (s : Login_state) : Login_state :=
  {| form := form s; loading := b; error := error s;
     navigated := navigated s |}.

Definition setError (e : jsval) (s : Login_state) : Login_state :=
  {| form := form s; loading := loading s; error := e;
     navigated := navigated s |}.

Definition navigate (to : string) (s : Login_state) : Login_state :=
  {| form := form s; loading := loading s; error := error s;
     navigated := navigated s ++ [to] |}.

Section login_form.
Context {J : Type} `{!JSON J}.
(** axios' serialisation of [{ username, password }]. *)
Variable credentials : string → string → string.

(** [handleSubmit] up to [await authAPI.login(...)]: the call that is now
    in flight, if any. *)
Definition handleSubmit_start (s : Login_state) (w : world)
  : Login_state * world * option (task J) :=
  if negb (truthy_str (username (form s)))
     || negb (truthy_str (password (form s)))
  then (setError (VStr "Please enter both username and password") s, w, None)
  else
    let s := setError (VStr "") (setLoading true s) in
    let r := api w (authAPI.login_request
                      (credentials (username (form s)) (password (form s)))) in
    (s, r.1, Some r.2).

(** [handleSubmit] from the settled login promise on; [success] is
    [response.status === 'success'] for the returned body.  An exception
    of [handleError] leaves through the [finally] block. *)
Definition handleSubmit_settled (success : bool) (s : Login_state)
    (p : promise J (body J)) : Login_state * option exn :=
  match p with
  | Fulfilled response =>
      if success
      then (setLoading false (navigate "/dashboard" s), None)
      else (setLoading false
              (setError (js_or (message response) (VStr "Login failed")) s),
            None)
  | RejectedWith e =>
      match apiUtils.handleError e with
      | Ok errorInfo =>
          (setLoading false (setError (apiUtils.info_message errorInfo) s),
           None)
      | Throw x => (setLoading false s, Some x)
      end
  | Pending => (s, None)
  end.

End login_form.

(** A stand-in for the serialised login payload, and a fresh form. *)
Definition sample_credentials (u p : string) : string := u ++ ":" ++ p.

Definition sample_form (u p : string) : Login_state :=
  {| form := {| username := u; password := p |}; loading := false;
     error := VStr ""; navigated := [] |}.

(** * Properties *)

(** ** The codec instance *)

Module QuotedJSONFacts.
Import QuotedJSON.

Lemma strip_last_quote s : strip_last (s ++ quote) = Some s.
Proof.
  induction s as [|c s IH]; [reflexivity|].
  change (String c s ++ quote) with (String c (s ++ quote)).
  destruct (s ++ quote) as [|d t] eqn:E.
  - destruct s; discriminate E.
  - change (strip_last (String c (String d t)))
      with (String c <$> strip_last (String d t)).
    by rewrite IH.
Qed.

Lemma qparse_qstringify j : qparse (qstringify j) = Some j.
Proof.
  destruct j as [s|]; [|reflexivity].
  unfold qparse, qstringify.
  change (quote ++ s ++ quote)
    with (String (Ascii.ascii_of_nat 34) (s ++ quote)).
  destruct (String.eqb _ "null") eqn:E.
  - apply String.eqb_eq in E. discriminate E.
  - rewrite Ascii.eqb_refl, strip_last_quote. reflexivity.
Qed.

#[export] Instance quoted_json : JSON (option string) := {|
  jnull := None;
  stringify := qstringify;
  parse := qparse;
  parse_stringify := qparse_qstringify;
  parse_empty := eq_refl;
|}.

End QuotedJSONFacts.
Export QuotedJSONFacts.

(** ** Basic facts: keys, truthiness, the store *)

Lemma token_refresh_ne : TOKEN_KEY ≠ REFRESH_TOKEN_KEY.
Proof. discriminate. Qed.
Lemma token_user_ne : TOKEN_KEY ≠ USER_KEY.
Proof. discriminate. Qed.
Lemma refresh_user_ne : REFRESH_TOKEN_KEY ≠ USER_KEY.
Proof. discriminate. Qed.

Lemma truthy_str_true s : truthy_str s = true ↔ s ≠ "".
Proof. destruct s; simpl; split; congruence. Qed.

Lemma truthy_str_false s : truthy_str s = false ↔ s = "".
Proof. destruct s; simpl; split; congruence. Qed.


Lemma clearAll_lookup (ls : storage) k :
  tokenManager.clearAll ls !! k =
    if decide (k = TOKEN_KEY ∨ k = REFRESH_TOKEN_KEY ∨ k = USER_KEY)
    then None else ls !! k.
Proof.
  unfold tokenManager.clearAll, removeItem.
  case_decide as Hk.
  - destruct (decide (k = USER_KEY)) as [->|]; [by rewrite lookup_delete_eq|].
    rewrite lookup_delete_ne by done.
    destruct (decide (k = REFRESH_TOKEN_KEY)) as [->|];
      [by rewrite lookup_delete_eq|].
    rewrite lookup_delete_ne by done.
    destruct Hk as [->|[?|?]]; [by rewrite lookup_delete_eq|done..].
  - rewrite !lookup_delete_ne; [done|intros <-; tauto..].
Qed.

Lemma clearAll_absent (ls : storage) : all_absent (tokenManager.clearAll ls).
Proof.
  repeat split; rewrite clearAll_lookup; case_decide; tauto.
Qed.

(** ** Headers *)

Lemma filter_key_absent {V} (k : string) (l : list (string * V)) :
  k ∉ l.*1 → filter (λ kv, kv.1 = k) l = [].
Proof.
  induction l as [|[k' v'] l IH]; intros Hk; [done|].
  rewrite fmap_cons, not_elem_of_cons in Hk. destruct Hk as [Hne Hk].
  rewrite filter_cons_False by (simpl; intros ->; by apply Hne). by apply IH.
Qed.

Lemma filter_key_once {V} (k : string) (v : V) (l : list (string * V)) :
  NoDup l.*1 → (k, v) ∈ l → length (filter (λ kv, kv.1 = k) l) = 1.
Proof.
  induction l as [|[k' v'] l IH]; intros Hnd Hin.
  - by apply elem_of_nil in Hin.
  - rewrite fmap_cons in Hnd. apply NoDup_cons in Hnd as [Hk' Hnd].
    destruct (decide (k' = k)) as [->|Hne].
    + rewrite filter_cons_True by done.
      rewrite filter_key_absent by done. done.
    + rewrite filter_cons_False by done.
      apply elem_of_cons in Hin as [Heq|Hin]; [congruence|]. by apply IH.
Qed.

Lemma header_count_present k v c :
  headers c !! k = Some v → header_count k c = 1.
Proof.
  intros Hk. unfold header_count.
  apply (filter_key_once k v).
  - apply NoDup_fst_map_to_list.
  - by apply elem_of_map_to_list.
Qed.

Lemma header_count_absent k c :
  headers c !! k = None → header_count k c = 0.
Proof.
  intros Hk. unfold header_count.
  rewrite filter_key_absent; [done|].
  intros Hin. apply list_elem_of_fmap in Hin as [[k' v] [-> Hin]].
  apply elem_of_map_to_list in Hin. simpl in Hk. congruence.
Qed.

(** ** The credential store *)

Section store_facts.
Context {J : Type} `{!JSON J}.


Lemma getUser_absent (ls : storage) :
  ls !! USER_KEY = None → tokenManager.getUser ls = Ok jnull.
Proof. intros E. unfold tokenManager.getUser, getItem. by rewrite E. Qed.


End store_facts.

(** ** [apiUtils.isAuthenticated] *)

(** The reading of C10 as it is worded: authenticated exactly when the
    access-token entry exists. *)
Definition authenticated_iff_entry_present : Prop :=
  ∀ ls : storage,
    apiUtils.isAuthenticated ls = true ↔ is_Some (ls !! TOKEN_KEY).

(** C10, counterexample. An access-token entry holding the empty string is
    present, yet [!!""] is [false]. *)
Lemma isAuthenticated_empty_token : ¬ authenticated_iff_entry_present.
Proof.
  intros claim.
  destruct (claim {[TOKEN_KEY := ""]}) as [_ back].
  assert (apiUtils.isAuthenticated {[TOKEN_KEY := ""]} = true) as E.
  { apply back. rewrite lookup_singleton_eq. by eexists. }
  vm_compute in E. discriminate E.
Qed.

(** C10, amended. [isAuthenticated] is [true] exactly when the access-token
    entry is present and is not the empty string; two stores with the same
    access-token entry are classified alike, whatever their refresh-token
    and user entries. *)
Theorem isAuthenticated_spec (ls ls' : storage) :
  (apiUtils.isAuthenticated ls = true ↔
     ∃ token, ls !! TOKEN_KEY = Some token ∧ token ≠ "")
  ∧ (ls !! TOKEN_KEY = ls' !! TOKEN_KEY →
     apiUtils.isAuthenticated ls = apiUtils.isAuthenticated ls').
Proof.
  unfold apiUtils.isAuthenticated, tokenManager.getToken, getItem. split.
  - destruct (ls !! TOKEN_KEY) as [t|]; simpl.
    + rewrite truthy_str_true. split; [eauto|]. by intros (? & [= <-] & ?).
    + split; [done|]. by intros (? & ? & ?).
  - by intros ->.
Qed.

Lemma isAuthenticated_spec_witness :
  apiUtils.isAuthenticated {[TOKEN_KEY := "t0"]} =
  apiUtils.isAuthenticated
    (<[USER_KEY := "null"]> (<[REFRESH_TOKEN_KEY := "r0"]> {[TOKEN_KEY := "t0"]})).
Proof.
  apply (proj2 (isAuthenticated_spec {[TOKEN_KEY := "t0"]}
    (<[USER_KEY := "null"]> (<[REFRESH_TOKEN_KEY := "r0"]> {[TOKEN_KEY := "t0"]})))).
  vm_compute. reflexivity.
Defined.

(** ** The request interceptor *)

Section request_facts.
Context {J : Type} `{!JSON J}.

Lemma request_interceptor_token (ls : storage) cfg token :
  ls !! TOKEN_KEY = Some token → token ≠ "" →
  request_interceptor ls cfg = set_header "Authorization" (bearer token) cfg.
Proof.
  intros E Hne. unfold request_interceptor, tokenManager.getToken, getItem.
  rewrite E. by apply truthy_str_true in Hne as ->.
Qed.

Lemma request_interceptor_none (ls : storage) cfg :
  ls !! TOKEN_KEY = None → request_interceptor ls cfg = cfg.
Proof.
  intros E. unfold request_interceptor, tokenManager.getToken, getItem.
  by rewrite E.
Qed.

Lemma request_interceptor_empty (ls : storage) cfg :
  ls !! TOKEN_KEY = Some "" → request_interceptor ls cfg = cfg.
Proof.
  intros E. unfold request_interceptor, tokenManager.getToken, getItem.
  by rewrite E.
Qed.

Lemma set_header_twice k v c : set_header k v (set_header k v c) = set_header k v c.
Proof. unfold set_header; simpl. by rewrite insert_insert_eq. Qed.

(** The retried request: the header written at line 84 and the one the
    request interceptor writes from the store coincide. *)
Lemma request_interceptor_retry (ls : storage) (token : jsval) cfg :
  request_interceptor (tokenManager.setToken token ls)
    (set_header "Authorization" (bearer (to_string token)) cfg)
  = set_header "Authorization" (bearer (to_string token)) cfg.
Proof.
  unfold request_interceptor, tokenManager.getToken, tokenManager.setToken,
    getItem, setItem.
  rewrite lookup_insert_eq.
  destruct (truthy_str (to_string token)); [|done].
  apply set_header_twice.
Qed.

End request_facts.

(** ** One request through the response pipeline *)

Section pipeline_facts.
Context {J : Type} `{!JSON J}.
Implicit Types (w : world) (cfg orig rq : config) (d : body J)
  (od : option (body J)) (o : net_outcome J) (st : Z)
  (resp : option (response J)).

Lemma settle_fulfilled cfg st od :
  (200 ≤ st < 300)%Z →
  settle cfg (Responded st od) = inl {| status := st; data := od |}.
Proof.
  intros [Hlo Hhi]. unfold settle.
  apply Z.leb_le in Hlo. apply Z.ltb_lt in Hhi. by rewrite Hlo, Hhi.
Qed.

Lemma settle_rejected cfg st od :
  ¬ (200 ≤ st < 300)%Z →
  settle cfg (Responded st od) = inr (status_error cfg st od).
Proof.
  intros Hst. unfold settle.
  destruct (200 <=? st)%Z eqn:Hlo; [|done].
  destruct (st <? 300)%Z eqn:Hhi; [|done].
  apply Z.leb_le in Hlo. apply Z.ltb_lt in Hhi. lia.
Qed.

Lemma settle_401 cfg od :
  settle cfg (Responded 401 od) = inr (status_error cfg 401 od).
Proof. reflexivity. Qed.

(** A rejected call whose request already carries the retry flag, or
    whose answer is not a 401, leaves the handler as it came. *)
Lemma on_rejected_passthrough w cfg resp req msg :
  is_401 resp = false ∨ _retry cfg = true →
  on_rejected w (AxiosError cfg resp req msg)
  = (w, Rejected (AxiosError cfg resp req msg)).
Proof.
  intros [E|E]; unfold on_rejected; rewrite E; [done|].
  by rewrite andb_false_r.
Qed.

(** An answered or failed retried request settles the task with that
    outcome. *)
Lemma deliver_retried w cfg o :
  _retry cfg = true →
  deliver w (AwaitResponse cfg) o
  = (w, match settle cfg o with
        | inl r => Resolved r
        | inr e => Rejected e
        end).
Proof.
  intros Hr. unfold deliver.
  destruct (settle cfg o) as [r|e] eqn:E; [done|].
  destruct o as [st od|msg]; simpl in E.
  - destruct (_ && _); [done|]. injection E as <-.
    apply on_rejected_passthrough. by right.
  - injection E as <-. apply on_rejected_passthrough. by left.
Qed.

(** The first 401 of a request, with a non-empty refresh token stored:
    the flag is set and the refresh call goes out. *)
Lemma deliver_first_401 w cfg od rt :
  _retry cfg = false →
  localStorage w !! REFRESH_TOKEN_KEY = Some rt → rt ≠ "" →
  deliver w (AwaitResponse cfg) (Responded 401 od)
  = (send (RefreshCall (refresh_request (VStr rt))) w,
     AwaitRefresh (set_retry true cfg) (refresh_request (VStr rt))).
Proof.
  intros Hr Hrt Hne. unfold deliver. rewrite settle_401.
  unfold status_error, on_rejected. simpl. rewrite Hr. simpl.
  unfold tokenManager.getRefreshToken, getItem. rewrite Hrt.
  by apply truthy_str_true in Hne as ->.
Qed.

(** The first 401 of a request, with no usable refresh token: the
    session ends and the 401 is passed on. *)
Lemma deliver_first_401_no_refresh w cfg od :
  _retry cfg = false →
  (localStorage w !! REFRESH_TOKEN_KEY = None
   ∨ localStorage w !! REFRESH_TOKEN_KEY = Some "") →
  deliver w (AwaitResponse cfg) (Responded 401 od)
  = (end_session w, Rejected (status_error (set_retry true cfg) 401 od)).
Proof.
  intros Hr Hrt. unfold deliver. rewrite settle_401.
  unfold status_error, on_rejected. simpl. rewrite Hr. simpl.
  unfold tokenManager.getRefreshToken, getItem.
  by destruct Hrt as [-> | ->].
Qed.

(** A fulfilled refresh call carrying a body: the access token is
    stored and the original request goes out again. *)
Lemma on_refresh_fulfilled w orig rq st d :
  (200 ≤ st < 300)%Z →
  on_refresh_settled w orig rq (Responded st (Some d))
  = let cfg' :=
      set_header "Authorization" (bearer (to_string (access_token d))) orig in
    (send (ApiCall cfg')
       (with_storage (tokenManager.setToken (access_token d)) w),
     AwaitResponse cfg').
Proof.
  intros Hst. unfold on_refresh_settled. rewrite settle_fulfilled by done.
  simpl. unfold api. simpl. by rewrite request_interceptor_retry.
Qed.

(** Every other answer of the refresh call lands in the [catch] block. *)
Lemma on_refresh_rejected w orig rq o :
  (∀ st d, o = Responded st (Some d) → ¬ (200 ≤ st < 300)%Z) →
  ∃ e, on_refresh_settled w orig rq o = (end_session w, Rejected e).
Proof.
  intros Ho. unfold on_refresh_settled.
  destruct (settle rq o) as [r|e] eqn:E; [|by eexists].
  destruct (data r) as [d|] eqn:Ed; [|by eexists].
  destruct o as [st od|msg]; [|done]. simpl in E.
  destruct (200 <=? st)%Z eqn:Hlo; [|done].
  destruct (st <? 300)%Z eqn:Hhi; [|done].
  injection E as <-. simpl in Ed. subst od.
  apply Z.leb_le in Hlo. apply Z.ltb_lt in Hhi.
  exfalso. apply (Ho st d); [done|lia].
Qed.

Lemma deliver_settled w (t : task J) o :
  match t with Resolved _ | Rejected _ => True | _ => False end →
  deliver w t o = (w, t).
Proof. by destruct t. Qed.

End pipeline_facts.

Section request_claims.
Context {J : Type} `{!JSON J}.
Implicit Types (w : world) (cfg orig rq : config) (d : body J)
  (od : option (body J)) (o : net_outcome J) (st : Z).

(** C7. Every request handed to [api] goes on the wire, as the request
    interceptor returns it; the step has no failing case.  With a non-empty
    access credential [token] in the store the request on the wire has the
    header [Authorization: Bearer token], that header occurs once, and
    nothing else of the request is changed.  With no access credential in
    the store (for [if (token)] a stored empty string is none) the request
    goes out as it came, with no header added.  The retried request, whose
    header is written at line 84 and again by the interceptor, goes out
    with the header [Authorization: Bearer <new token>] once and its
    other headers as before. *)
Theorem bearer_attached_once w cfg token orig rq st d :
  let ls := localStorage w in
  let sent := request_interceptor ls cfg in
  api (J:=J) w cfg = (send (ApiCall sent) w, AwaitResponse sent)
  ∧ wire (api (J:=J) w cfg).1 = (wire w ++ [ApiCall sent])%list
  ∧ (ls !! TOKEN_KEY = Some token → token ≠ "" →
     headers sent = <["Authorization" := "Bearer " ++ token]> (headers cfg)
     ∧ headers sent !! "Authorization" = Some ("Bearer " ++ token)
     ∧ header_count "Authorization" sent = 1
     ∧ (url sent, method sent, payload sent, _retry sent)
       = (url cfg, method cfg, payload cfg, _retry cfg))
  ∧ (ls !! TOKEN_KEY = None ∨ ls !! TOKEN_KEY = Some "" →
     sent = cfg
     ∧ headers sent !! "Authorization" = headers cfg !! "Authorization")
  ∧ ((200 ≤ st < 300)%Z →
     let after := on_refresh_settled w orig rq (Responded st (Some d)) in
     ∃ cfg',
       after.2 = AwaitResponse cfg'
       ∧ wire after.1 = (wire w ++ [ApiCall cfg'])%list
       ∧ headers cfg'
         = <["Authorization" := "Bearer " ++ to_string (access_token d)]>
             (headers orig)
       ∧ header_count "Authorization" cfg' = 1
       ∧ (url cfg', method cfg', payload cfg')
         = (url orig, method orig, payload orig)).
Proof.
  cbv zeta. split; [done|]. split; [done|]. split; [|split].
  - intros E Hne. rewrite (request_interceptor_token _ _ token) by done.
    change (bearer token) with ("Bearer " ++ token).
    split; [done|]. split; [apply lookup_insert_eq|]. split; [|done].
    apply (header_count_present _ ("Bearer " ++ token)). simpl.
    apply lookup_insert_eq.
  - intros [E|E].
    + by rewrite request_interceptor_none.
    + by rewrite request_interceptor_empty.
  - intros Hst. rewrite on_refresh_fulfilled by done. cbv zeta.
    cbn [fst snd].
    change (bearer (to_string (access_token d)))
      with ("Bearer " ++ to_string (access_token d)).
    eexists. split; [done|]. split; [done|]. split; [done|]. split; [|done].
    apply (header_count_present _ ("Bearer " ++ to_string (access_token d))).
    simpl. apply lookup_insert_eq.
Qed.

End request_claims.

Lemma bearer_attached_once_witness :
  (∃ sent,
     wire (api (J:=option string) (sample_world {[TOKEN_KEY := "t0"]})
             sample_request).1 = [ApiCall sent]
     ∧ headers sent !! "Authorization" = Some "Bearer t0"
     ∧ header_count "Authorization" sent = 1)
  ∧ request_interceptor ∅ sample_request = sample_request
  ∧ request_interceptor {[TOKEN_KEY := ""]} sample_request = sample_request
  ∧ ∃ cfg',
      wire (on_refresh_settled (J:=option string) (sample_world sample_store)
              (set_retry true sample_request) (refresh_request (VStr "r0"))
              (Responded 200 (Some (sample_body "t1")))).1 = [ApiCall cfg']
      ∧ headers cfg' !! "Authorization" = Some "Bearer t1"
      ∧ header_count "Authorization" cfg' = 1.
Proof.
  pose proof (bearer_attached_once (J:=option string)
    (sample_world {[TOKEN_KEY := "t0"]}) sample_request "t0"
    (set_retry true sample_request) (refresh_request (VStr "r0")) 200
    (sample_body "t1")) as (_ & Hw & Ha & _).
  pose proof (bearer_attached_once (J:=option string) (sample_world ∅)
    sample_request "t0" (set_retry true sample_request)
    (refresh_request (VStr "r0")) 200 (sample_body "t1"))
    as (_ & _ & _ & Hb & _).
  pose proof (bearer_attached_once (J:=option string)
    (sample_world {[TOKEN_KEY := ""]}) sample_request "t0"
    (set_retry true sample_request) (refresh_request (VStr "r0")) 200
    (sample_body "t1")) as (_ & _ & _ & He & _).
  pose proof (bearer_attached_once (J:=option string)
    (sample_world sample_store) sample_request "t0"
    (set_retry true sample_request) (refresh_request (VStr "r0")) 200
    (sample_body "t1")) as (_ & _ & _ & _ & Hc).
  split; [|split; [|split]].
  - destruct Ha as (_ & Hh & Hn & _); [reflexivity|discriminate|].
    eexists. split; [exact Hw|]. split; [exact Hh|exact Hn].
  - apply Hb. by left.
  - apply He. by right.
  - destruct Hc as (cfg' & _ & Hwire & Hh & Hn & _); [lia|].
    exists cfg'. split; [exact Hwire|]. split; [|exact Hn].
    rewrite Hh. apply lookup_insert_eq.
Defined.

Section single_request_claims.
Context {J : Type} `{!JSON J}.
Implicit Types (w : world) (cfg orig rq : config) (d : body J)
  (od : option (body J)) (o : net_outcome J) (st : Z).

(** C8. A call of the pipeline that gets no response (network failure or
    the 10 s timeout) is rejected with its own error, whether it is an
    original or a retried request: the world is left as it was (store
    unchanged, no refresh call, nothing else sent), and [handleError]
    turns the error into a status-0 report. *)
Theorem transport_error_passthrough w cfg (msg : string) :
  let error : js_error J := AxiosError cfg None true msg in
  let after := deliver w (AwaitResponse cfg) (NoResponse msg) in
  after = (w, Rejected error)
  ∧ localStorage after.1 = localStorage w
  ∧ refresh_calls after.1 = refresh_calls w
  ∧ wire after.1 = wire w
  ∧ apiUtils.handleError error
    = Ok {| apiUtils.info_status := 0;
            apiUtils.info_message :=
              VStr "Network error - please check your connection";
            apiUtils.info_details := VNull |}.
Proof.
  intros error after.
  assert (after = (w, Rejected error)) as ->; [|done].
  subst after error. reflexivity.
Qed.

(** C6. A fulfilled refresh call replaces the access-token entry and
    nothing else: the refresh-token entry, the user entry and every other
    key of the store read as before.  The same holds for the write of
    [authAPI.refreshToken]. *)
Theorem refresh_write_frame w orig rq st d :
  (200 ≤ st < 300)%Z →
  let ls := localStorage w in
  let ls' :=
    localStorage (on_refresh_settled w orig rq (Responded st (Some d))).1 in
  let ls'' :=
    localStorage
      (authAPI.refreshToken_resolved w {| status := st; data := Some d |}).1 in
  ls' = <[TOKEN_KEY := to_string (access_token d)]> ls
  ∧ ls' !! REFRESH_TOKEN_KEY = ls !! REFRESH_TOKEN_KEY
  ∧ ls' !! USER_KEY = ls !! USER_KEY
  ∧ (∀ k, k ≠ TOKEN_KEY → ls' !! k = ls !! k)
  ∧ ls'' = ls'.
Proof.
  intros Hst. rewrite on_refresh_fulfilled by done. simpl.
  unfold tokenManager.setToken, setItem.
  split; [done|]. split; [by rewrite lookup_insert_ne|].
  split; [by rewrite lookup_insert_ne|]. split; [|done].
  intros k Hk. by rewrite lookup_insert_ne.
Qed.

Lemma request_interceptor_retry_flag (ls : storage) cfg :
  _retry (request_interceptor ls cfg) = _retry cfg.
Proof.
  unfold request_interceptor.
  destruct (tokenManager.getToken ls) as [t|]; [|done].
  by destruct (truthy_str t).
Qed.

Lemma answers_settled w (t : task J) (os : list (net_outcome J)) :
  match t with Resolved _ | Rejected _ => True | _ => False end →
  answers (w, t) os = (w, t).
Proof.
  intros Ht. induction os as [|o os IH]; [done|].
  unfold answers in *. simpl. by rewrite deliver_settled.
Qed.

Lemma answers_app (wt : world * task J) os1 os2 :
  answers wt (os1 ++ os2) = answers (answers wt os1) os2.
Proof. unfold answers. by rewrite foldl_app. Qed.

Lemma refresh_calls_send w (c : call) :
  refresh_calls (send c w)
  = refresh_calls w + (if is_refresh c then 1 else 0).
Proof.
  unfold refresh_calls, send. simpl.
  rewrite filter_app, length_app. f_equal.
  by destruct c.
Qed.

Lemma api_calls_send w (c : call) :
  api_calls (send c w) = api_calls w + (if is_refresh c then 0 else 1).
Proof.
  unfold api_calls, send. simpl.
  rewrite filter_app, length_app. f_equal.
  by destruct c.
Qed.

Lemma refresh_calls_with_storage f w :
  refresh_calls (with_storage f w) = refresh_calls w.
Proof. done. Qed.

Lemma api_calls_with_storage f w :
  api_calls (with_storage f w) = api_calls w.
Proof. done. Qed.

(** The run of one request up to its retry: first answer a 401, refresh
    fulfilled with body [d]. *)
Lemma answers_refresh_retry w cfg rt od st d :
  _retry cfg = false →
  localStorage w !! REFRESH_TOKEN_KEY = Some rt → rt ≠ "" →
  (200 ≤ st < 300)%Z →
  let sent := request_interceptor (localStorage w) cfg in
  let retried :=
    set_header "Authorization" (bearer (to_string (access_token d)))
      (set_retry true sent) in
  answers (api w cfg) [Responded 401 od; Responded st (Some d)]
  = (send (ApiCall retried)
       (with_storage (tokenManager.setToken (access_token d))
          (send (RefreshCall (refresh_request (VStr rt)))
             (send (ApiCall sent) w))),
     AwaitResponse retried).
Proof.
  intros Hr Hrt Hne Hst. unfold answers, api. cbn [foldl fst snd].
  rewrite (deliver_first_401 _ _ _ rt);
    [|by rewrite request_interceptor_retry_flag|done..].
  cbn [deliver fst snd]. by rewrite on_refresh_fulfilled.
Qed.

(** C2. A request that has not been retried, answered with a 401 while a
    non-empty refresh credential is stored and the refresh endpoint
    answers with success: the wire sees the original request, one refresh
    call and one retried request, in that order and nothing more, and the
    caller's promise settles with the outcome of the retried request
    (fulfilled with its response or rejected with its error). *)
Theorem refresh_then_retry w cfg rt od st d o :
  _retry cfg = false →
  localStorage w !! REFRESH_TOKEN_KEY = Some rt → rt ≠ "" →
  (200 ≤ st < 300)%Z →
  let sent := request_interceptor (localStorage w) cfg in
  let retried :=
    set_header "Authorization" (bearer (to_string (access_token d)))
      (set_retry true sent) in
  let final :=
    answers (api w cfg) [Responded 401 od; Responded st (Some d); o] in
  wire final.1
    = (wire w ++ [ApiCall sent; RefreshCall (refresh_request (VStr rt));
                  ApiCall retried])%list
  ∧ refresh_calls final.1 = refresh_calls w + 1
  ∧ api_calls final.1 = api_calls w + 2
  ∧ final.2 = match settle retried o with
              | inl r => Resolved r
              | inr e => Rejected e
              end.
Proof.
  intros Hr Hrt Hne Hst sent retried final. subst final.
  change [Responded 401 od; Responded st (Some d); o]
    with ([Responded 401 od; Responded st (Some d)] ++ [o])%list.
  rewrite answers_app, (answers_refresh_retry _ _ rt) by done.
  fold sent. fold retried. unfold answers. cbn [foldl fst snd].
  rewrite deliver_retried by done. cbn [fst snd].
  rewrite refresh_calls_send, refresh_calls_with_storage, !refresh_calls_send.
  rewrite api_calls_send, api_calls_with_storage, !api_calls_send. simpl.
  repeat split; [|lia..].
  by rewrite <- !app_assoc.
Qed.

(** C3. When the single retry of a request is itself answered with a
    401, that 401 is what the caller gets: the task is rejected with the
    error of the retried request, and whatever reaches the task
    afterwards, the wire has seen one refresh call and two sends of the
    request (the original and the one retry), never a third send or a
    second refresh. *)
Theorem second_401_surfaces w cfg rt od st d od' (later : list (net_outcome J)) :
  _retry cfg = false →
  localStorage w !! REFRESH_TOKEN_KEY = Some rt → rt ≠ "" →
  (200 ≤ st < 300)%Z →
  let sent := request_interceptor (localStorage w) cfg in
  let retried :=
    set_header "Authorization" (bearer (to_string (access_token d)))
      (set_retry true sent) in
  let final :=
    answers (api w cfg)
      ([Responded 401 od; Responded st (Some d); Responded 401 od']
         ++ later)%list in
  final.2 = Rejected (status_error retried 401 od')
  ∧ _retry retried = true
  ∧ wire final.1
    = (wire w ++ [ApiCall sent; RefreshCall (refresh_request (VStr rt));
                  ApiCall retried])%list
  ∧ refresh_calls final.1 = refresh_calls w + 1
  ∧ api_calls final.1 = api_calls w + 2.
Proof.
  intros Hr Hrt Hne Hst sent retried final. subst final.
  change ([Responded 401 od; Responded st (Some d); Responded 401 od']
            ++ later)%list
    with ([Responded 401 od; Responded st (Some d)]
            ++ [Responded 401 od'] ++ later)%list.
  rewrite !answers_app, (answers_refresh_retry _ _ rt) by done.
  fold sent. fold retried.
  assert (answers
            (send (ApiCall retried)
               (with_storage (tokenManager.setToken (access_token d))
                  (send (RefreshCall (refresh_request (VStr rt)))
                     (send (ApiCall sent) w))),
             AwaitResponse retried) [Responded 401 od']
          = (send (ApiCall retried)
               (with_storage (tokenManager.setToken (access_token d))
                  (send (RefreshCall (refresh_request (VStr rt)))
                     (send (ApiCall sent) w))),
             Rejected (status_error retried 401 od'))) as ->.
  { unfold answers. cbn [foldl fst snd].
    rewrite deliver_retried by done. by rewrite settle_401. }
  rewrite answers_settled by done. cbn [fst snd].
  rewrite refresh_calls_send, refresh_calls_with_storage, !refresh_calls_send.
  rewrite api_calls_send, api_calls_with_storage, !api_calls_send. simpl.
  repeat split; [|lia..].
  by rewrite <- !app_assoc.
Qed.

End single_request_claims.

Lemma refresh_write_frame_witness :
  let w := sample_world sample_store in
  let ls' :=
    localStorage
      (on_refresh_settled (J:=option string) w (set_retry true sample_request)
         (refresh_request (VStr "r0"))
         (Responded 200 (Some (sample_body "t1")))).1 in
  ls' = <[TOKEN_KEY := "t1"]> sample_store
  ∧ ls' !! REFRESH_TOKEN_KEY = Some "r0"
  ∧ ls' !! USER_KEY = Some "null".
Proof.
  intros w.
  destruct (refresh_write_frame (J:=option string) w
              (set_retry true sample_request) (refresh_request (VStr "r0"))
              200 (sample_body "t1")) as (Ha & Hb & Hc & _); [lia|].
  split; [exact Ha|]. split; [exact Hb|exact Hc].
Defined.

Lemma refresh_then_retry_witness :
  let final :=
    answers (J:=option string)
      (api (sample_world sample_store) sample_request)
      [Responded 401 None; Responded 200 (Some (sample_body "t1"));
       Responded 200 None] in
  refresh_calls final.1 = 1
  ∧ api_calls final.1 = 2
  ∧ final.2 = Resolved {| status := 200; data := None |}.
Proof.
  destruct (refresh_then_retry (J:=option string)
              (sample_world sample_store) sample_request "r0" None 200
              (sample_body "t1") (Responded 200 None))
    as (_ & Hr & Ha & Hf); [reflexivity|reflexivity|discriminate|lia|].
  split; [exact Hr|]. split; [exact Ha|exact Hf].
Defined.

Lemma second_401_surfaces_witness :
  let final :=
    answers (J:=option string)
      (api (sample_world sample_store) sample_request)
      [Responded 401 None; Responded 200 (Some (sample_body "t1"));
       Responded 401 None; Responded 200 None] in
  refresh_calls final.1 = 1
  ∧ api_calls final.1 = 2
  ∧ ∃ cfg, final.2 = Rejected (status_error cfg 401 None).
Proof.
  destruct (second_401_surfaces (J:=option string)
              (sample_world sample_store) sample_request "r0" None 200
              (sample_body "t1") None [Responded 200 None])
    as (Hf & _ & _ & Hr & Ha); [reflexivity|reflexivity|discriminate|lia|].
  split; [exact Hr|]. split; [exact Ha|].
  eexists. exact Hf.
Defined.

(** ** Several requests in flight *)

Section concurrency_facts.
Context {J : Type} `{!JSON J}.
Implicit Types (w : world) (cfg orig rq : config) (d : body J)
  (od : option (body J)) (o : net_outcome J) (st : Z)
  (ts pre : list (task J)) (os : list (net_outcome J)).

Lemma sends_nil w : sends [] w = w.
Proof. destruct w. unfold sends. simpl. by rewrite app_nil_r. Qed.

Lemma sends_send (c : call) (cs : list call) w :
  sends cs (send c w) = sends (c :: cs) w.
Proof. unfold sends, send. simpl. by rewrite <- app_assoc. Qed.

Lemma refresh_calls_sends (cs : list call) w :
  refresh_calls (sends cs w)
  = refresh_calls w + length (filter (λ c, is_refresh c = true) cs).
Proof. unfold refresh_calls, sends. simpl. by rewrite filter_app, length_app. Qed.

Lemma filter_refresh_replicate n rq :
  filter (λ c, is_refresh c = true) (replicate n (RefreshCall rq))
  = replicate n (RefreshCall rq).
Proof.
  induction n as [|n IH]; [done|]. simpl.
  rewrite filter_cons_True by done. by rewrite IH.
Qed.

Lemma filter_refresh_api (cfgs : list config) :
  filter (λ c, is_refresh c = true) (ApiCall <$> cfgs) = [].
Proof.
  induction cfgs as [|c cfgs IH]; [done|]. simpl.
  by rewrite filter_cons_False.
Qed.

(** A schedule that visits the tasks from left to right is a sweep. *)
Lemma run_sweep ts : ∀ pre w os,
  length os = length ts →
  run {| shared := w; tasks := pre ++ ts |}
      (zip (seq (length pre) (length ts)) os)
  = {| shared := (sweep w ts os).1; tasks := pre ++ (sweep w ts os).2 |}.
Proof.
  induction ts as [|t ts IH]; intros pre w os Hlen.
  - by destruct os.
  - destruct os as [|o os]; [done|]. injection Hlen as Hlen.
    cbn [length seq zip zip_with run foldl sweep].
    unfold sys_deliver at 2. cbn [tasks shared fst snd].
    rewrite list_lookup_middle by done.
    destruct (deliver w t o) as [w1 t1] eqn:E. cbn [fst snd].
    rewrite insert_app_r_alt by done.
    replace (length pre - length pre) with 0 by lia. cbn [insert list_insert].
    specialize (IH (pre ++ [t1])%list w1 os Hlen).
    rewrite length_app in IH. simpl in IH.
    replace (length pre + 1) with (S (length pre)) in IH by lia.
    rewrite <- app_assoc in IH. simpl in IH.
    unfold run in IH. rewrite IH. by rewrite <- app_assoc.
Qed.

Lemma run_in_order w ts os :
  length os = length ts →
  run {| shared := w; tasks := ts |} (in_order os)
  = {| shared := (sweep w ts os).1; tasks := (sweep w ts os).2 |}.
Proof.
  intros Hlen. unfold in_order. rewrite Hlen.
  by apply (run_sweep ts []).
Qed.

Lemma start_eq (cfgs : list config) : ∀ w,
  start (J:=J) w cfgs
  = {| shared :=
         sends (ApiCall <$> (request_interceptor (localStorage w) <$> cfgs)) w;
       tasks :=
         AwaitResponse <$> (request_interceptor (localStorage w) <$> cfgs) |}.
Proof.
  induction cfgs as [|c cfgs IH]; intros w.
  - simpl. by rewrite sends_nil.
  - cbn [start api fmap list_fmap]. rewrite IH. simpl.
    by rewrite sends_send.
Qed.

(** Phase one: every request is answered with a 401 while a non-empty
    refresh token is stored.  Each of them sends its own refresh call. *)
Lemma sweep_unauthorized rt (cfgs : list config) : ∀ w,
  Forall (λ c, _retry c = false) cfgs →
  localStorage w !! REFRESH_TOKEN_KEY = Some rt → rt ≠ "" →
  sweep (J:=J) w (AwaitResponse <$> cfgs)
          (replicate (length cfgs) (unauthorized None))
  = (sends (replicate (length cfgs)
              (RefreshCall (refresh_request (VStr rt)))) w,
     (λ c, AwaitRefresh (set_retry true c) (refresh_request (VStr rt)))
       <$> cfgs).
Proof.
  induction cfgs as [|c cfgs IH]; intros w Hall Hrt Hne.
  - simpl. by rewrite sends_nil.
  - apply Forall_cons in Hall as [Hc Hall].
    cbn [fmap list_fmap length replicate sweep].
    change (unauthorized (J:=J) None) with (Responded (J:=J) 401 None).
    rewrite (deliver_first_401 _ _ _ rt) by done. cbn [fst snd].
    change (Responded (J:=J) 401 None) with (unauthorized (J:=J) None).
    rewrite IH by done. cbn [fst snd]. by rewrite sends_send.
Qed.

Lemma all_unauthorized_eq rt w (cfgs : list config) :
  Forall (λ c, _retry c = false) cfgs →
  localStorage w !! REFRESH_TOKEN_KEY = Some rt → rt ≠ "" →
  let sent := request_interceptor (localStorage w) <$> cfgs in
  all_unauthorized (J:=J) w cfgs
  = {| shared :=
         sends (replicate (length cfgs)
                  (RefreshCall (refresh_request (VStr rt))))
           (sends (ApiCall <$> sent) w);
       tasks :=
         (λ c, AwaitRefresh (set_retry true c) (refresh_request (VStr rt)))
           <$> sent |}.
Proof.
  intros Hall Hrt Hne. cbv zeta. unfold all_unauthorized.
  rewrite start_eq.
  rewrite run_in_order by (by rewrite length_replicate, !length_fmap).
  rewrite <- (length_fmap (request_interceptor (localStorage w)) cfgs).
  rewrite (sweep_unauthorized rt); [done| |done..].
  apply Forall_fmap. eapply Forall_impl; [exact Hall|].
  intros c Hc. simpl. by rewrite request_interceptor_retry_flag.
Qed.

End concurrency_facts.

(** ** What each answer adds *)

Section accounting.
Context {J : Type} `{!JSON J}.
Implicit Types (w : world) (cfg orig rq : config) (d : body J)
  (od : option (body J)) (o : net_outcome J) (st : Z)
  (s : system J) (ev : nat * net_outcome J)
  (schedule : list (nat * net_outcome J)).

Lemma sys_deliver_shared s ev :
  shared (sys_deliver s ev)
  = match tasks s !! ev.1 with
    | Some t => (deliver (shared s) t ev.2).1
    | None => shared s
    end.
Proof.
  unfold sys_deliver. destruct (tasks s !! ev.1) as [t|]; [|done].
  by destruct (deliver (shared s) t ev.2).
Qed.

Lemma sys_deliver_tasks s ev :
  tasks (sys_deliver s ev)
  = match tasks s !! ev.1 with
    | Some t => <[ev.1 := (deliver (shared s) t ev.2).2]> (tasks s)
    | None => tasks s
    end.
Proof.
  unfold sys_deliver. destruct (tasks s !! ev.1) as [t|]; [|done].
  by destruct (deliver (shared s) t ev.2).
Qed.

Lemma sys_deliver_other s ev (j : nat) :
  j ≠ ev.1 → tasks (sys_deliver s ev) !! j = tasks s !! j.
Proof.
  intros Hj. rewrite sys_deliver_tasks.
  destruct (tasks s !! ev.1) as [t|]; [|done].
  by rewrite list_lookup_insert_ne.
Qed.

Lemma run_cons s ev schedule :
  run s (ev :: schedule) = run (sys_deliver s ev) schedule.
Proof. done. Qed.

Lemma run_snoc s schedule ev :
  run s (schedule ++ [ev]) = sys_deliver (run s schedule) ev.
Proof. unfold run. by rewrite foldl_app. Qed.

Lemma run_other schedule : ∀ s (j : nat),
  j ∉ schedule.*1 → tasks (run s schedule) !! j = tasks s !! j.
Proof.
  induction schedule as [|ev schedule IH]; intros s j Hj; [done|].
  rewrite fmap_cons, not_elem_of_cons in Hj. destruct Hj as [Hne Hj].
  rewrite run_cons, IH by done. by apply sys_deliver_other.
Qed.

Lemma location_end_session w :
  location (end_session w)
  = (location w ++ [("/login", tokenManager.clearAll (localStorage w))])%list.
Proof. done. Qed.

(** One answer adds a refresh call exactly when it [triggers_refresh], and
    an assignment of [/login], on a cleared store, exactly when it
    [ends_session]. *)
Lemma sys_deliver_accounts s ev :
  refresh_calls (shared (sys_deliver s ev))
  = refresh_calls (shared s) + (if triggers_refresh s ev then 1 else 0)
  ∧ location (shared (sys_deliver s ev))
    = (location (shared s)
       ++ if ends_session s ev
          then [("/login", tokenManager.clearAll (localStorage (shared s)))]
          else [])%list.
Proof.
  assert (∀ w, refresh_calls (end_session w) = refresh_calls w) as Hend
    by done.
  rewrite sys_deliver_shared. unfold triggers_refresh, ends_session.
  destruct ev as [i o]. cbn [fst snd].
  destruct (tasks s !! i) as [[c|orig rq|r|e]|];
    [| |by rewrite app_nil_r, Nat.add_0_r..].
  - destruct o as [st od|msg].
    2:{ by rewrite app_nil_r, Nat.add_0_r. }
    destruct (Z.eqb_spec st 401) as [->|Hne].
    + unfold deliver. rewrite settle_401. unfold status_error, on_rejected.
      cbn [is_401 status Z.eqb Pos.eqb andb].
      destruct (_retry c); cbn [negb andb fst snd].
      { by rewrite app_nil_r, Nat.add_0_r. }
      destruct (tokenManager.getRefreshToken (localStorage (shared s)))
        as [rt|]; cbn [item_val truthy].
      * destruct (truthy_str rt); cbn [negb fst snd].
        -- by rewrite refresh_calls_send, app_nil_r.
        -- by rewrite Hend, Nat.add_0_r.
      * cbn [negb fst snd]. by rewrite Hend, Nat.add_0_r.
    + cbn [andb]. rewrite app_nil_r, Nat.add_0_r.
      assert (deliver (shared s) (AwaitResponse c) (Responded st od)
              = (shared s, match settle c (Responded st od) with
                           | inl r => Resolved r
                           | inr e => Rejected e
                           end)) as ->; [|done].
      unfold deliver. destruct (settle c (Responded st od)) as [r|e] eqn:E;
        [done|].
      simpl in E. destruct (_ && _); [done|]. injection E as <-.
      apply on_rejected_passthrough. left. simpl.
      by apply Z.eqb_neq.
  - cbn [deliver]. unfold on_refresh_settled, on_refresh_failed.
    destruct o as [st od|msg];
      [|cbn [settle fst snd]; by rewrite Hend, Nat.add_0_r].
    cbn [settle]. destruct ((200 <=? st)%Z && (st <? 300)%Z).
    + cbn [data]. destruct od as [d|]; cbn [negb fst snd].
      * unfold api. cbn [fst]. rewrite refresh_calls_send, app_nil_r.
        by rewrite refresh_calls_with_storage.
      * by rewrite Hend, Nat.add_0_r.
    + destruct od as [d|]; cbn [negb fst snd]; by rewrite Hend, Nat.add_0_r.
Qed.

(** Along a schedule the refresh calls are the answers that trigger one. *)
Lemma run_refresh_calls schedule : ∀ s,
  refresh_calls (shared (run s schedule))
  = refresh_calls (shared s) + count_events triggers_refresh s schedule.
Proof.
  induction schedule as [|ev schedule IH]; intros s; [simpl; lia|].
  rewrite run_cons, IH. cbn [count_events].
  destruct (sys_deliver_accounts s ev) as [-> _]. lia.
Qed.

(** Along a schedule the assignments of [/login] are the answers that end
    a session, each made on a cleared store. *)
Lemma run_location schedule : ∀ s,
  ∃ new,
    location (shared (run s schedule)) = (location (shared s) ++ new)%list
    ∧ length new = count_events ends_session s schedule
    ∧ Forall cleared_login new.
Proof.
  induction schedule as [|ev schedule IH]; intros s.
  - exists []. by rewrite app_nil_r.
  - rewrite run_cons. destruct (IH (sys_deliver s ev)) as (new & Hl & Hn & Hc).
    destruct (sys_deliver_accounts s ev) as [_ Hloc].
    rewrite Hl, Hloc, <- app_assoc. cbn [count_events].
    eexists. split; [done|]. destruct (ends_session s ev).
    + split; [simpl; by rewrite Hn|].
      apply Forall_cons. split; [|done].
      pose proof (clearAll_absent (localStorage (shared s))) as Habs.
      split; [done|]. split; [done|].
      destruct Habs as (Ht & _).
      unfold apiUtils.isAuthenticated, tokenManager.getToken, getItem.
      simpl. by rewrite Ht.
    + by split.
Qed.

(** The first 401s of several requests, arriving in any order while a
    non-empty refresh token is stored. *)
Lemma run_unauthorized_any_order rt
    (order : list (nat * option (body J))) : ∀ s,
  NoDup order.*1 →
  (∀ j od, (j, od) ∈ order →
     ∃ c, tasks s !! j = Some (AwaitResponse c) ∧ _retry c = false) →
  localStorage (shared s) !! REFRESH_TOKEN_KEY = Some rt → rt ≠ "" →
  let s' := run s ((λ e, (e.1, Responded 401 e.2)) <$> order) in
  refresh_calls (shared s') = refresh_calls (shared s) + length order
  ∧ localStorage (shared s') = localStorage (shared s)
  ∧ ∀ j od, (j, od) ∈ order →
      ∃ c, tasks s !! j = Some (AwaitResponse c)
           ∧ tasks s' !! j
             = Some (AwaitRefresh (set_retry true c)
                       (refresh_request (VStr rt))).
Proof.
  induction order as [|[i odi] order IH]; intros s Hnd Hall Hrt Hne.
  - cbv zeta. simpl. split; [lia|]. split; [done|].
    intros j od Hin. by apply elem_of_nil in Hin.
  - rewrite fmap_cons in Hnd. apply NoDup_cons in Hnd as [Hi Hnd].
    destruct (Hall i odi) as (ci & Hci & Hri); [by left|].
    cbv zeta. rewrite fmap_cons, run_cons. cbn [fst snd].
    assert (sys_deliver s (i, Responded 401 odi)
            = {| shared := send (RefreshCall (refresh_request (VStr rt)))
                             (shared s);
                 tasks := <[i := AwaitRefresh (set_retry true ci)
                                   (refresh_request (VStr rt))]> (tasks s) |})
      as Hstep.
    { unfold sys_deliver. cbn [fst snd]. rewrite Hci.
      by rewrite (deliver_first_401 _ _ _ rt). }
    rewrite Hstep.
    edestruct (IH {| shared := send (RefreshCall (refresh_request (VStr rt)))
                                 (shared s);
                     tasks := <[i := AwaitRefresh (set_retry true ci)
                                       (refresh_request (VStr rt))]>
                                (tasks s) |}) as (Hcount & Hls & Htasks);
      [exact Hnd| |exact Hrt|exact Hne|].
    { intros j od Hin. cbn [tasks].
      assert (j ≠ i) as Hji.
      { intros ->. apply Hi. apply list_elem_of_fmap. by exists (i, od). }
      rewrite list_lookup_insert_ne by done.
      apply (Hall j od). by right. }
    cbv zeta in Hcount, Hls, Htasks. cbn [shared tasks] in Hcount, Hls, Htasks.
    rewrite refresh_calls_send in Hcount. simpl in Hcount.
    split; [simpl; lia|]. split; [exact Hls|].
    intros j od Hin. apply elem_of_cons in Hin as [[= -> ->]|Hin].
    + exists ci. split; [done|].
      rewrite run_other.
      * cbn [tasks]. apply list_lookup_insert_eq.
        by apply lookup_lt_Some in Hci.
      * intros Hin. apply Hi.
        apply list_elem_of_fmap in Hin as [[j' o'] [-> Hin]].
        apply list_elem_of_fmap in Hin as [[j'' od''] [[= -> ->] Hin]].
        apply list_elem_of_fmap. by exists (j'', od'').
    + destruct (Htasks j od Hin) as (c & Hc & Hc').
      assert (j ≠ i) as Hji.
      { intros ->. apply Hi. apply list_elem_of_fmap. by exists (i, od). }
      rewrite list_lookup_insert_ne in Hc by done.
      by exists c.
Qed.

End accounting.

Section concurrent_refresh.
Context {J : Type} `{!JSON J}.
Implicit Types (w : world) (cfg orig rq : config) (d : body J)
  (od : option (body J)) (o : net_outcome J) (st : Z)
  (ts pre : list (task J)) (os : list (net_outcome J)).

(** Phase two, every refresh call fulfilled: each request is sent again
    with the token of its own refresh answer. *)
Lemma sweep_refreshed rq (origs : list config) : ∀ w (ds : list (body J)),
  length ds = length origs →
  let r := sweep w ((λ c, AwaitRefresh c rq) <$> origs) (refreshed <$> ds) in
  r.2 = zip_with
          (λ c d, AwaitResponse
             (set_header "Authorization"
                (bearer (to_string (access_token d))) c)) origs ds
  ∧ refresh_calls r.1 = refresh_calls w
  ∧ api_calls r.1 = api_calls w + length origs
  ∧ location r.1 = location w.
Proof.
  induction origs as [|c origs IH]; intros w ds Hlen.
  - by destruct ds.
  - destruct ds as [|d ds]; [done|]. injection Hlen as Hlen.
    cbn [fmap list_fmap sweep zip_with deliver].
    change (refreshed d) with (Responded 200 (Some d)).
    rewrite on_refresh_fulfilled by lia.
    destruct (IH (send
                    (ApiCall (set_header "Authorization"
                                (bearer (to_string (access_token d))) c))
                    (with_storage (tokenManager.setToken (access_token d)) w))
                 ds Hlen) as (Ht & Hr & Ha & Hl).
    cbv zeta in Ht, Hr, Ha, Hl |- *. cbn [fst snd].
    rewrite Ht, Hr, Ha, Hl.
    rewrite refresh_calls_send, api_calls_send, refresh_calls_with_storage,
      api_calls_with_storage.
    simpl. repeat split; lia.
Qed.

(** C1, amended. Refresh calls are made per request and are not
    serialized.  Under every schedule the refresh calls on the wire are
    exactly the 401 answers that reached a not-yet-retried request while a
    non-empty refresh credential was stored: each such answer sends one
    refresh call of its own, whatever the other requests are doing, and
    nothing else sends one.  When the first 401s of N requests arrive, in
    any order, before any refresh answer, all N refresh calls are pending
    at the same time, with the same refresh credential.  Each request
    whose refresh call is fulfilled is sent again with the access
    credential of its own refresh answer. *)
Theorem each_request_refreshes (s : system J)
    (schedule : list (nat * net_outcome J)) (i : nat) cfg orig rq od rt st d
    (order : list (nat * option (body J))) :
  refresh_calls (shared (run s schedule))
  = refresh_calls (shared s) + count_events triggers_refresh s schedule
  ∧ (tasks s !! i = Some (AwaitResponse cfg) → _retry cfg = false →
     localStorage (shared s) !! REFRESH_TOKEN_KEY = Some rt → rt ≠ "" →
     triggers_refresh s (i, Responded 401 od) = true
     ∧ sys_deliver s (i, Responded 401 od)
       = {| shared := send (RefreshCall (refresh_request (VStr rt))) (shared s);
            tasks := <[i := AwaitRefresh (set_retry true cfg)
                              (refresh_request (VStr rt))]> (tasks s) |})
  ∧ (tasks s !! i = Some (AwaitRefresh orig rq) → (200 ≤ st < 300)%Z →
     let cfg' :=
       set_header "Authorization" ("Bearer " ++ to_string (access_token d))
         orig in
     sys_deliver s (i, Responded st (Some d))
     = {| shared :=
            send (ApiCall cfg')
              (with_storage (tokenManager.setToken (access_token d))
                 (shared s));
          tasks := <[i := AwaitResponse cfg']> (tasks s) |})
  ∧ (NoDup order.*1 →
     (∀ j od', (j, od') ∈ order →
        ∃ c, tasks s !! j = Some (AwaitResponse c) ∧ _retry c = false) →
     localStorage (shared s) !! REFRESH_TOKEN_KEY = Some rt → rt ≠ "" →
     let s' := run s ((λ e, (e.1, Responded 401 e.2)) <$> order) in
     refresh_calls (shared s') = refresh_calls (shared s) + length order
     ∧ ∀ j od', (j, od') ∈ order →
         ∃ c, tasks s !! j = Some (AwaitResponse c)
              ∧ tasks s' !! j
                = Some (AwaitRefresh (set_retry true c)
                          (refresh_request (VStr rt)))).
Proof.
  split; [apply run_refresh_calls|]. split; [|split].
  - intros Hi Hr Hrt Hne. split.
    + unfold triggers_refresh. cbn [fst snd]. rewrite Hi, Hr.
      unfold tokenManager.getRefreshToken, getItem. rewrite Hrt. simpl.
      by apply truthy_str_true.
    + unfold sys_deliver. cbn [fst snd]. rewrite Hi.
      by rewrite (deliver_first_401 _ _ _ rt).
  - intros Hi Hst. cbv zeta. unfold sys_deliver. cbn [fst snd]. rewrite Hi.
    cbn [deliver]. by rewrite on_refresh_fulfilled.
  - intros Hnd Hall Hrt Hne.
    destruct (run_unauthorized_any_order rt order s Hnd Hall Hrt Hne)
      as (Hc & _ & Ht).
    by split.
Qed.

End concurrent_refresh.

Lemma each_request_refreshes_witness :
  let s0 :=
    start (J:=option string) (sample_world sample_store)
      [sample_request; sample_request] in
  let s1 := run s0 [(1, Responded 401 None); (0, Responded 401 None)] in
  refresh_calls (shared s1) = 2
  ∧ (∃ c, tasks s1 !! 0
          = Some (AwaitRefresh (set_retry true c)
                    (refresh_request (VStr "r0"))))
  ∧ (∃ c, tasks s1 !! 1
          = Some (AwaitRefresh (set_retry true c)
                    (refresh_request (VStr "r0"))))
  ∧ ∃ cfg',
      tasks (sys_deliver s1 (1, Responded 200 (Some (sample_body "t1")))) !! 1
      = Some (AwaitResponse cfg')
      ∧ headers cfg' !! "Authorization" = Some "Bearer t1".
Proof.
  intros s0 s1.
  destruct (each_request_refreshes (J:=option string) s0 [] 0
              sample_request sample_request sample_request None "r0" 200
              (sample_body "t1") [(1, None); (0, None)])
    as (_ & _ & _ & Hall).
  destruct Hall as (Hcount & Htasks).
  { apply NoDup_cons. split; [|apply NoDup_singleton].
    apply not_elem_of_cons. split; [discriminate|apply not_elem_of_nil]. }
  { intros j od' Hin. apply elem_of_cons in Hin as [[= -> ->]|Hin];
      [by eexists|].
    apply elem_of_cons in Hin as [[= -> ->]|Hin]; [by eexists|].
    by apply elem_of_nil in Hin. }
  { reflexivity. }
  { discriminate. }
  destruct (Htasks 0 None) as (c0 & _ & H0);
    [apply elem_of_cons; right; apply elem_of_cons; by left|].
  destruct (Htasks 1 None) as (c1 & _ & H1); [apply elem_of_cons; by left|].
  split; [exact Hcount|]. split; [by exists c0|]. split; [by exists c1|].
  destruct (each_request_refreshes (J:=option string) s1 [] 1
              sample_request (set_retry true c1)
              (refresh_request (VStr "r0")) None "r0" 200
              (sample_body "t1") []) as (_ & _ & Hstep & _).
  cbv zeta in Hstep. change (tasks s1 !! 1) with
    (tasks (run s0 [(1, Responded 401 None); (0, Responded 401 None)]) !! 1)
    in Hstep.
  rewrite (Hstep H1) by lia. cbn [tasks].
  eexists. split.
  - apply list_lookup_insert_eq. by apply lookup_lt_Some in H1.
  - simpl. apply lookup_insert_eq.
Defined.

(** C1, counterexample. Two requests in flight, both answered with a 401
    while the refresh token ["r0"] is stored: two refresh calls go out. *)
Lemma two_requests_two_refresh_calls :
  refresh_calls
    (shared (all_unauthorized (J:=option string) (sample_world sample_store)
               [sample_request; sample_request])) = 2
  ∧ ¬ one_refresh_for_all (option string).
Proof.
  split; [by vm_compute|].
  intros claim.
  specialize (claim (sample_world sample_store)
                [sample_request; sample_request] "r0").
  assert (refresh_calls
            (shared (all_unauthorized (J:=option string)
                       (sample_world sample_store)
                       [sample_request; sample_request])) = 0 + 1) as E.
  { apply claim; [done|by repeat constructor|done|done]. }
  vm_compute in E. discriminate E.
Qed.

(** ** The end of a session *)

Section session_end.
Context {J : Type} `{!JSON J}.
Implicit Types (w : world) (cfg orig rq : config) (d : body J)
  (od : option (body J)) (o : net_outcome J) (st : Z)
  (ts pre : list (task J)) (os : list (net_outcome J)).

Lemma clearAll_idemp (ls : storage) :
  tokenManager.clearAll (tokenManager.clearAll ls) = tokenManager.clearAll ls.
Proof.
  apply map_eq. intros k. rewrite !clearAll_lookup. by case_decide.
Qed.

Lemma all_absent_unauthenticated (ls : storage) :
  all_absent ls → apiUtils.isAuthenticated ls = false.
Proof.
  intros (Ht & _). unfold apiUtils.isAuthenticated, tokenManager.getToken,
    getItem. by rewrite Ht.
Qed.

(** Every way out of a failed refresh goes through [end_session]. *)
Lemma on_refresh_failing w orig rq o :
  refresh_fails o →
  (on_refresh_settled w orig rq o).1 = end_session w
  ∧ settled (on_refresh_settled w orig rq o).2.
Proof.
  intros Ho. destruct (on_refresh_rejected w orig rq o Ho) as [e ->]. done.
Qed.

(** Phase two, every refresh call failed: each request ends the session
    on its own. *)
Lemma sweep_refresh_failed rq (origs : list config) : ∀ w os,
  length os = length origs → Forall refresh_fails os →
  let r := sweep w ((λ c, AwaitRefresh c rq) <$> origs) os in
  location r.1
    = (location w ++
       replicate (length origs)
         ("/login", tokenManager.clearAll (localStorage w)))%list
  ∧ Forall settled r.2.
Proof.
  induction origs as [|c origs IH]; intros w os Hlen Hos.
  - destruct os; [|done]. simpl. by rewrite app_nil_r.
  - destruct os as [|o os]; [done|]. injection Hlen as Hlen.
    apply Forall_cons in Hos as [Ho Hos].
    cbn [fmap list_fmap sweep deliver length replicate].
    destruct (on_refresh_failing w c rq o Ho) as [-> Hset].
    destruct (IH (end_session w) os Hlen Hos) as [Hl Hts].
    cbv zeta in Hl, Hts |- *. cbn [fst snd]. rewrite Hl. split.
    + simpl. rewrite clearAll_idemp. by rewrite <- app_assoc.
    + by apply Forall_cons.
Qed.

(** C4, amended. A failed refresh call, and a 401 that finds no refresh
    credential in the store (none, or the empty string), each remove all
    three entries and then assign [/login] to [window.location.href] once:
    at the moment of the assignment the store reads as unauthenticated.
    The signal is per request and not per session: under every schedule,
    from every state, [/login] is assigned once for each answer that makes
    a request run into the failure, every time on a cleared store, so the
    number of assignments is the number of such answers. *)
Theorem session_end_per_request w cfg orig rq od o (s : system J)
    (schedule : list (nat * net_outcome J)) :
  (refresh_fails o →
     let w' := (on_refresh_settled w orig rq o).1 in
     all_absent (localStorage w')
     ∧ apiUtils.isAuthenticated (localStorage w') = false
     ∧ location w' = (location w ++ [("/login", localStorage w')])%list)
  ∧ (_retry cfg = false →
     localStorage w !! REFRESH_TOKEN_KEY = None
     ∨ localStorage w !! REFRESH_TOKEN_KEY = Some "" →
     let w' := (deliver w (AwaitResponse cfg) (Responded 401 od)).1 in
     all_absent (localStorage w')
     ∧ apiUtils.isAuthenticated (localStorage w') = false
     ∧ location w' = (location w ++ [("/login", localStorage w')])%list)
  ∧ (∃ new,
       location (shared (run s schedule)) = (location (shared s) ++ new)%list
       ∧ length new = count_events ends_session s schedule
       ∧ Forall cleared_login new)
  ∧ signals (shared (run s schedule))
    = signals (shared s) + count_events ends_session s schedule.
Proof.
  assert (∀ w0, all_absent (localStorage (end_session w0))
                ∧ apiUtils.isAuthenticated (localStorage (end_session w0))
                  = false
                ∧ location (end_session w0)
                  = (location w0
                     ++ [("/login", localStorage (end_session w0))])%list)
    as Hend.
  { intros w0. pose proof (clearAll_absent (localStorage w0)) as Habs.
    split; [exact Habs|]. split; [|done].
    by apply all_absent_unauthenticated. }
  split; [|split; [|split]].
  - intros Ho. cbv zeta.
    destruct (on_refresh_failing w orig rq o Ho) as [-> _]. apply Hend.
  - intros Hr Hrt. cbv zeta.
    rewrite deliver_first_401_no_refresh by done. apply Hend.
  - apply run_location.
  - destruct (run_location schedule s) as (new & Hl & Hn & _).
    unfold signals. by rewrite Hl, length_app, Hn.
Qed.

End session_end.

Lemma session_end_per_request_witness :
  let w := sample_world sample_store in
  all_absent
    (localStorage
       (on_refresh_settled (J:=option string) w (set_retry true sample_request)
          (refresh_request (VStr "r0")) (Responded 401 None)).1)
  ∧ all_absent
      (localStorage
         (deliver (J:=option string)
            (sample_world (<[REFRESH_TOKEN_KEY := ""]> {[TOKEN_KEY := "t0"]}))
            (AwaitResponse sample_request) (Responded 401 None)).1)
  ∧ signals
      (shared
         (run (start (J:=option string) w [sample_request; sample_request])
              [(1, Responded 401 None); (0, Responded 401 None);
               (0, NoResponse "Network Error"); (1, Responded 401 None)]))
    = 2.
Proof.
  intros w.
  pose proof (session_end_per_request (J:=option string) w sample_request
    (set_retry true sample_request) (refresh_request (VStr "r0")) None
    (Responded 401 None)
    (start (J:=option string) w [sample_request; sample_request])
    [(1, Responded 401 None); (0, Responded 401 None);
     (0, NoResponse "Network Error"); (1, Responded 401 None)])
    as (Ha & _ & _ & Hc).
  pose proof (session_end_per_request (J:=option string)
    (sample_world (<[REFRESH_TOKEN_KEY := ""]> {[TOKEN_KEY := "t0"]}))
    sample_request (set_retry true sample_request)
    (refresh_request (VStr "r0")) None (Responded 401 None)
    (start (J:=option string) w [sample_request; sample_request]) [])
    as (_ & Hb & _).
  split; [|split].
  - apply Ha. intros st d [=].
  - apply Hb; [reflexivity|by right].
  - rewrite Hc. reflexivity.
Defined.

(** C4, counterexample. Two requests in flight whose refresh calls are both
    rejected: [/login] is assigned twice.  And with one refresh call
    rejected and the other fulfilled afterwards, [/login] has been assigned
    once, on a cleared store, yet a read after that finds an access token
    again. *)
Lemma two_failures_two_signals :
  signals
    (shared
       (run (all_unauthorized (J:=option string) (sample_world sample_store)
               [sample_request; sample_request])
            (in_order [Responded 401 None; Responded 401 None])))
  = 2
  ∧ ¬ one_signal_per_session (option string)
  ∧ (let final :=
       run (start (J:=option string) (sample_world sample_store)
              [sample_request; sample_request])
           [(0, Responded 401 None); (1, Responded 401 None);
            (0, Responded 500 None);
            (1, Responded 200 (Some (sample_body "t1")))] in
     location (shared final) = [("/login", ∅)]
     ∧ apiUtils.isAuthenticated (localStorage (shared final)) = true).
Proof.
  split; [by vm_compute|]. split; [|by vm_compute].
  intros claim.
  specialize (claim (sample_world sample_store)
                [sample_request; sample_request] "r0"
                [Responded 401 None; Responded 401 None]).
  assert (signals
            (shared
               (run (all_unauthorized (J:=option string)
                       (sample_world sample_store)
                       [sample_request; sample_request])
                    (in_order [Responded 401 None; Responded 401 None])))
          = 0 + 1) as E.
  { apply claim; [done|by repeat constructor|done|done|done|].
    repeat constructor; intros st d [=]. }
  vm_compute in E. discriminate E.
Qed.

Section record_shape.
Context {J : Type} `{!JSON J}.
Implicit Types (w : world) (cfg orig rq : config) (d : body J)
  (od : option (body J)) (o : net_outcome J) (st : Z)
  (ts pre : list (task J)) (os : list (net_outcome J)).

Lemma all_present_setToken (ls : storage) (token : jsval) :
  all_present ls → all_present (tokenManager.setToken token ls).
Proof.
  intros (Ht & Hr & Hu). unfold tokenManager.setToken, setItem.
  repeat split.
  - rewrite lookup_insert_eq. by eexists.
  - by rewrite lookup_insert_ne.
  - by rewrite lookup_insert_ne.
Qed.

Lemma end_session_whole w (t : task J) :
  settled t → whole_while_refreshing (end_session w, t).
Proof.
  intros Ht. split; [right; apply clearAll_absent|]. by destruct t.
Qed.

Lemma on_rejected_whole w (e : js_error J) :
  all_or_nothing (localStorage w) →
  whole_while_refreshing (on_rejected w e).
Proof.
  intros Hw. unfold on_rejected.
  destruct e as [c resp req msg|e]; [|by split].
  destruct (is_401 resp && negb (_retry c)); [|by split].
  unfold tokenManager.getRefreshToken, getItem.
  destruct (localStorage w !! REFRESH_TOKEN_KEY) as [rt|] eqn:Hrt;
    [|by apply end_session_whole].
  destruct (truthy_str rt); [|by apply end_session_whole].
  split; [exact Hw|]. simpl.
  destruct Hw as [Hp|(_ & Hr & _)]; [exact Hp|congruence].
Qed.

Lemma on_refresh_settled_whole w orig rq o :
  all_present (localStorage w) →
  whole_while_refreshing (on_refresh_settled w orig rq o).
Proof.
  intros Hw. unfold on_refresh_settled, on_refresh_failed.
  destruct (settle rq o) as [r|e]; [|by apply end_session_whole].
  destruct (data r) as [d|]; [|by apply end_session_whole].
  split; [|done]. left. simpl. by apply all_present_setToken.
Qed.

Lemma deliver_whole (wt : world * task J) o :
  whole_while_refreshing wt →
  whole_while_refreshing (deliver wt.1 wt.2 o).
Proof.
  destruct wt as [w t]. intros [Hw Ht]. simpl in Hw, Ht |- *.
  destruct t as [c|orig rq|r|e]; simpl.
  - destruct (settle c o) as [r|e]; [by split|].
    by apply on_rejected_whole.
  - by apply on_refresh_settled_whole.
  - by split.
  - by split.
Qed.

Lemma answers_whole os : ∀ (wt : world * task J),
  whole_while_refreshing wt → whole_while_refreshing (answers wt os).
Proof.
  induction os as [|o os IH]; intros wt Hwt; [done|].
  unfold answers in *. simpl. apply IH. by apply deliver_whole.
Qed.

(** C5, amended. A login write leaves all three entries present; a
    logout and a failed refresh leave all three absent; a refresh write
    replaces the access entry only, so the record is whole after it
    exactly when the refresh and user entries were there at the moment of
    the write.  With a single request in flight that is always so: from a
    record that is whole or gone, the record is whole or gone after every
    answer. *)
Theorem record_whole_or_gone w (r : response J) d
    (a : response J + js_error J) orig rq o st cfg os :
  (data r = Some d →
     all_present (localStorage (authAPI.login_resolved w r).1))
  ∧ all_absent (localStorage (authAPI.logout_settled w a))
  ∧ (refresh_fails o →
     all_absent (localStorage (on_refresh_settled w orig rq o).1))
  ∧ ((200 ≤ st < 300)%Z →
     all_or_nothing
       (localStorage (on_refresh_settled w orig rq (Responded st (Some d))).1)
     ↔ is_Some (localStorage w !! REFRESH_TOKEN_KEY)
       ∧ is_Some (localStorage w !! USER_KEY))
  ∧ (all_or_nothing (localStorage w) →
     all_or_nothing (localStorage (answers (api w cfg) os).1)).
Proof.
  split; [|split; [|split; [|split]]].
  - intros Hd. unfold authAPI.login_resolved. rewrite Hd. simpl.
    unfold tokenManager.setUser, tokenManager.setRefreshToken,
      tokenManager.setToken, setItem.
    repeat split.
    + rewrite !lookup_insert_ne by done. rewrite lookup_insert_eq. by eexists.
    + rewrite lookup_insert_ne by done. rewrite lookup_insert_eq. by eexists.
    + rewrite lookup_insert_eq. by eexists.
  - apply clearAll_absent.
  - intros Ho. destruct (on_refresh_failing w orig rq o Ho) as [-> _].
    apply clearAll_absent.
  - intros Hst. rewrite on_refresh_fulfilled by done. simpl.
    unfold tokenManager.setToken, setItem. split.
    + intros [(_ & Hr & Hu)|(Ht & _)].
      * by rewrite !lookup_insert_ne in Hr, Hu.
      * by rewrite lookup_insert_eq in Ht.
    + intros [Hr Hu]. left. repeat split.
      * rewrite lookup_insert_eq. by eexists.
      * by rewrite lookup_insert_ne.
      * by rewrite lookup_insert_ne.
  - intros Hw.
    apply (answers_whole os (api w cfg)). by split.
Qed.

End record_shape.

Lemma record_whole_or_gone_witness :
  let w := sample_world sample_store in
  all_present
    (localStorage
       (authAPI.login_resolved (J:=option string) (sample_world ∅)
          {| status := 200; data := Some (sample_body "t1") |}).1)
  ∧ all_absent
      (localStorage
         (on_refresh_settled (J:=option string) w
            (set_retry true sample_request) (refresh_request (VStr "r0"))
            (Responded 401 None)).1)
  ∧ all_or_nothing
      (localStorage
         (on_refresh_settled (J:=option string) w
            (set_retry true sample_request) (refresh_request (VStr "r0"))
            (Responded 200 (Some (sample_body "t1")))).1)
  ∧ all_or_nothing
      (localStorage
         (answers (J:=option string) (api w sample_request)
            [Responded 401 None; Responded 200 (Some (sample_body "t1"));
             Responded 200 None]).1).
Proof.
  intros w.
  pose proof (record_whole_or_gone (J:=option string) (sample_world ∅)
    {| status := 200; data := Some (sample_body "t1") |} (sample_body "t1")
    (inl {| status := 200; data := None |})
    (set_retry true sample_request) (refresh_request (VStr "r0"))
    (Responded 401 None) 200 sample_request []) as (Ha & _).
  pose proof (record_whole_or_gone (J:=option string) w
    {| status := 200; data := Some (sample_body "t1") |} (sample_body "t1")
    (inl {| status := 200; data := None |})
    (set_retry true sample_request) (refresh_request (VStr "r0"))
    (Responded 401 None) 200 sample_request
    [Responded 401 None; Responded 200 (Some (sample_body "t1"));
     Responded 200 None]) as (_ & _ & Hc & Hd & He).
  assert (all_present sample_store) as Hfull.
  { repeat split; by eexists. }
  split; [|split; [|split]].
  - apply Ha. reflexivity.
  - apply Hc. intros st d [=].
  - apply Hd; [lia|]. split; by eexists.
  - apply He. by left.
Defined.

(** C5, counterexample. Two requests in flight on a whole record, both
    answered with a 401; the refresh call of the first is rejected with a
    500 and clears the store, the refresh call of the second is fulfilled
    afterwards and writes its access token: the store is left with the
    access entry alone. *)
Lemma late_refresh_write_partial_record :
  let final :=
    run (start (J:=option string) (sample_world sample_store)
           [sample_request; sample_request])
        [(0, Responded 401 None); (1, Responded 401 None);
         (0, Responded 500 None);
         (1, Responded 200 (Some (sample_body "t1")))] in
  all_or_nothing sample_store
  ∧ localStorage (shared final) = {[TOKEN_KEY := "t1"]}
  ∧ ¬ all_or_nothing (localStorage (shared final))
  ∧ ¬ record_never_partial (option string).
Proof.
  intros final.
  assert (all_or_nothing sample_store) as Hfull.
  { left. repeat split; by eexists. }
  assert (localStorage (shared final) = {[TOKEN_KEY := "t1"]}) as Hfinal.
  { by vm_compute. }
  assert (¬ all_or_nothing (localStorage (shared final))) as Hpartial.
  { rewrite Hfinal. intros [(_ & [x Hr] & _)|(Ht & _)].
    - vm_compute in Hr. discriminate Hr.
    - vm_compute in Ht. discriminate Ht. }
  split; [exact Hfull|]. split; [exact Hfinal|]. split; [exact Hpartial|].
  intros claim. apply Hpartial. by apply claim.
Qed.

(** * Further properties of the client *)

(** ** Error reports *)

Section error_reports.
Context {J : Type} `{!JSON J}.
Implicit Types (w : world) (cfg orig rq : config) (d : body J)
  (od : option (body J)) (o : net_outcome J) (st : Z) (e : js_error J).

Lemma js_or_truthy (a b : jsval) : truthy b = true → truthy (js_or a b) = true.
Proof. intros Hb. unfold js_or. by destruct (truthy a) eqn:Ha. Qed.

Lemma handleError_cases e :
  ((∃ x, apiUtils.handleError e = Throw x) ↔
     ∃ c r q m, e = AxiosError c (Some r) q m ∧ data r = None)
  ∧ (∀ info, apiUtils.handleError e = Ok info →
       truthy (apiUtils.info_message info) = true).
Proof.
  split.
  - split.
    + intros [x Hx]. destruct e as [c [r|] q m|x']; simpl in Hx.
      * destruct (data r) eqn:Hd; [done|]. by exists c, r, q, m.
      * by destruct q.
      * done.
    + intros (c & r & q & m & -> & Hd). simpl. rewrite Hd. by eexists.
  - intros info Hinfo. destruct e as [c [r|] q m|x']; simpl in Hinfo.
    + destruct (data r) as [d|]; [|done]. injection Hinfo as <-. simpl.
      by apply js_or_truthy.
    + destruct q; injection Hinfo as <-; simpl; try done.
      by apply js_or_truthy.
    + injection Hinfo as <-. simpl. by apply js_or_truthy.
Qed.

(** X1. [handleError] throws exactly on an error whose response has a
    [null] body; in every other case it returns a report whose message is
    truthy and whose status is the status of the response, or [0] when the
    error has no response. *)
Theorem handleError_report e :
  ((∃ x, apiUtils.handleError e = Throw x) ↔
     ∃ c r q m, e = AxiosError c (Some r) q m ∧ data r = None)
  ∧ (∀ info, apiUtils.handleError e = Ok info →
       truthy (apiUtils.info_message info) = true
       ∧ apiUtils.info_status info
         = match e with
           | AxiosError _ (Some r) _ _ => status r
           | _ => 0%Z
           end).
Proof.
  destruct (handleError_cases e) as [Hthrow Hmsg].
  split; [exact Hthrow|].
  intros info Hinfo. split; [by apply Hmsg|].
  destruct e as [c [r|] q m|x']; simpl in Hinfo.
  - destruct (data r) as [d|]; [|done]. by injection Hinfo as <-.
  - destruct q; by injection Hinfo as <-.
  - by injection Hinfo as <-.
Qed.

(** Every answer but a 401 to a request without the retry flag. *)
Lemma deliver_quiet w cfg o :
  ¬ (∃ od, o = Responded 401 od ∧ _retry cfg = false) →
  deliver w (AwaitResponse cfg) o
  = (w, match settle cfg o with
        | inl r => Resolved r
        | inr e => Rejected e
        end).
Proof.
  intros Hno. unfold deliver.
  destruct (settle cfg o) as [r|e] eqn:E; [done|].
  destruct o as [st od|msg]; simpl in E.
  - destruct (_ && _); [done|]. injection E as <-.
    apply on_rejected_passthrough. simpl.
    destruct (Z.eqb_spec st 401) as [->|]; [|by left].
    right. destruct (_retry cfg) eqn:Hr; [done|].
    exfalso. apply Hno. by exists od.
  - injection E as <-. apply on_rejected_passthrough. by left.
Qed.

(** X2. The response pipeline acts on one kind of answer only: a 401 to a
    request that does not carry the retry flag.  Every other answer (a
    fulfilled response, another error status, a 401 to a retried request,
    no response at all) leaves the world as it is and settles the promise
    with that very response or error. *)
Theorem pipeline_acts_only_on_first_401 w cfg o :
  deliver w (AwaitResponse cfg) o
  = (w, match settle cfg o with
        | inl r => Resolved r
        | inr e => Rejected e
        end)
  ↔ ¬ (∃ od, o = Responded 401 od ∧ _retry cfg = false).
Proof.
  split.
  - intros Hd (od & -> & Hr).
    rewrite settle_401 in Hd. unfold deliver in Hd. rewrite settle_401 in Hd.
    unfold status_error, on_rejected in Hd. simpl in Hd. rewrite Hr in Hd.
    simpl in Hd.
    destruct (tokenManager.getRefreshToken (localStorage w)) as [rt|].
    + destruct (truthy_str rt).
      * by injection Hd.
      * injection Hd as _ Hc. apply (f_equal _retry) in Hc.
        simpl in Hc. congruence.
    + injection Hd as _ Hc. apply (f_equal _retry) in Hc.
      simpl in Hc. congruence.
  - apply deliver_quiet.
Qed.

End error_reports.

Lemma handleError_report_witness :
  ∃ info,
    apiUtils.handleError (J:=option string)
      (status_error sample_request 500 (Some (sample_body "t1"))) = Ok info
    ∧ truthy (apiUtils.info_message info) = true
    ∧ apiUtils.info_status info = 500%Z.
Proof.
  eexists. split; [reflexivity|].
  apply (proj2 (handleError_report (J:=option string)
                  (status_error sample_request 500 (Some (sample_body "t1"))))).
  reflexivity.
Defined.

(** ** When the refresh call goes wrong *)

Section refresh_gone_wrong.
Context {J : Type} `{!JSON J}.
Implicit Types (w : world) (cfg orig rq : config) (d : body J)
  (od : option (body J)) (o : net_outcome J) (st : Z) (e : js_error J).

Lemma signals_end_session w : signals (end_session w) = signals w + 1.
Proof. unfold signals, end_session, set_href. simpl. by rewrite length_app. Qed.

Lemma api_calls_end_session w : api_calls (end_session w) = api_calls w.
Proof. done. Qed.

Lemma refresh_calls_end_session w : refresh_calls (end_session w) = refresh_calls w.
Proof. done. Qed.

(** X3. When the refresh call of a request is rejected, for whatever
    reason, the caller is handed the error of the refresh call, not the
    401 of its own request; the store is cleared, [/login] is assigned and
    the request is not sent again.  In particular a refresh call that gets
    no response (a network failure) ends the session, and the caller sees
    a status-0 report. *)
Theorem refresh_error_surfaces w cfg rt od o e :
  _retry cfg = false →
  localStorage w !! REFRESH_TOKEN_KEY = Some rt → rt ≠ "" →
  settle (refresh_request (VStr rt)) o = inr e →
  let final := answers (api w cfg) [Responded 401 od; o] in
  final.2 = Rejected e
  ∧ all_absent (localStorage final.1)
  ∧ signals final.1 = signals w + 1
  ∧ refresh_calls final.1 = refresh_calls w + 1
  ∧ api_calls final.1 = api_calls w + 1
  ∧ (∀ msg, o = NoResponse msg →
       e = AxiosError (refresh_request (VStr rt)) None true msg
       ∧ apiUtils.handleError e
         = Ok {| apiUtils.info_status := 0;
                 apiUtils.info_message :=
                   VStr "Network error - please check your connection";
                 apiUtils.info_details := VNull |}).
Proof.
  intros Hr Hrt Hne He. cbv zeta.
  unfold answers, api. cbn [foldl fst snd].
  rewrite (deliver_first_401 _ _ _ rt);
    [|by rewrite request_interceptor_retry_flag|done..].
  cbn [deliver fst snd]. unfold on_refresh_settled. rewrite He.
  unfold on_refresh_failed. cbn [fst snd].
  rewrite signals_end_session, api_calls_end_session,
    refresh_calls_end_session, refresh_calls_send, api_calls_send,
    refresh_calls_send, api_calls_send. simpl.
  split; [done|]. split; [apply clearAll_absent|].
  split; [done|]. split; [lia|]. split; [lia|].
  intros msg ->. simpl in He. injection He as <-. done.
Qed.

(** X4. A refresh call that is answered with a 2xx status but a [null]
    body is handled like a failed one: the destructuring at line 80 throws
    inside the [try], so the store is cleared, [/login] is assigned, the
    original request is not retried and the caller gets the TypeError. *)
Theorem refresh_without_body_ends_session w orig rq st :
  (200 ≤ st < 300)%Z →
  let after := on_refresh_settled (J:=J) w orig rq (Responded st None) in
  (∃ m, after.2 = Rejected (Thrown (TypeError m)))
  ∧ all_absent (localStorage after.1)
  ∧ signals after.1 = signals w + 1
  ∧ wire after.1 = wire w.
Proof.
  intros Hst. cbv zeta. unfold on_refresh_settled.
  rewrite settle_fulfilled by done. simpl.
  split; [by eexists|]. split; [apply clearAll_absent|].
  split; [|done]. apply signals_end_session.
Qed.

(** X5. The access token of a refresh answer is stored and sent as
    [String(access_token)]: an answer whose body has no [access_token], or
    a [null] one, leaves the text [undefined] or [null] in the store, the
    retried request carries [Bearer undefined] or [Bearer null], and
    [isAuthenticated] is [true] afterwards; it is [false] only for the
    empty string. *)
Theorem refresh_token_is_coerced w orig rq st d :
  (200 ≤ st < 300)%Z →
  let after := on_refresh_settled w orig rq (Responded st (Some d)) in
  let token := to_string (access_token d) in
  tokenManager.getToken (localStorage after.1) = Some token
  ∧ (∃ cfg', after.2 = AwaitResponse cfg'
             ∧ headers cfg' !! "Authorization" = Some (bearer token))
  ∧ (apiUtils.isAuthenticated (localStorage after.1) = true ↔ token ≠ "")
  ∧ (access_token d = VUndefined ∨ access_token d = VNull →
     apiUtils.isAuthenticated (localStorage after.1) = true).
Proof.
  intros Hst. cbv zeta. rewrite on_refresh_fulfilled by done. cbv zeta.
  cbn [fst snd].
  assert (tokenManager.getToken
            (localStorage
               (send (ApiCall (set_header "Authorization"
                                 (bearer (to_string (access_token d))) orig))
                  (with_storage (tokenManager.setToken (access_token d)) w)))
          = Some (to_string (access_token d))) as Htok.
  { simpl. unfold tokenManager.getToken, tokenManager.setToken, getItem, setItem.
    apply lookup_insert_eq. }
  split; [exact Htok|]. split.
  { eexists. split; [done|]. simpl. apply lookup_insert_eq. }
  unfold apiUtils.isAuthenticated. rewrite Htok. simpl.
  split; [apply truthy_str_true|].
  by intros [-> | ->].
Qed.

End refresh_gone_wrong.

Lemma refresh_error_surfaces_witness :
  let final :=
    answers (J:=option string)
      (api (sample_world sample_store) sample_request)
      [Responded 401 None; NoResponse "Network Error"] in
  all_absent (localStorage final.1) ∧ signals final.1 = 1.
Proof.
  destruct (refresh_error_surfaces (J:=option string)
              (sample_world sample_store) sample_request "r0" None
              (NoResponse "Network Error")
              (AxiosError (refresh_request (VStr "r0")) None true
                 "Network Error"))
    as (_ & Ha & Hs & _); [reflexivity|reflexivity|discriminate|reflexivity|].
  split; [exact Ha|exact Hs].
Defined.

Lemma refresh_without_body_ends_session_witness :
  all_absent
    (localStorage
       (on_refresh_settled (J:=option string) (sample_world sample_store)
          (set_retry true sample_request) (refresh_request (VStr "r0"))
          (Responded 204 None)).1).
Proof.
  destruct (refresh_without_body_ends_session (J:=option string)
              (sample_world sample_store) (set_retry true sample_request)
              (refresh_request (VStr "r0")) 204) as (_ & Ha & _); [lia|].
  exact Ha.
Defined.

Lemma refresh_token_is_coerced_witness :
  apiUtils.isAuthenticated
    (localStorage
       (on_refresh_settled (J:=option string) (sample_world sample_store)
          (set_retry true sample_request) (refresh_request (VStr "r0"))
          (Responded 200
             (Some {| access_token := VUndefined; refresh_token := VUndefined;
                      user := None; message := VUndefined;
                      details := VUndefined |}))).1) = true.
Proof.
  destruct (refresh_token_is_coerced (J:=option string)
              (sample_world sample_store) (set_retry true sample_request)
              (refresh_request (VStr "r0")) 200
              {| access_token := VUndefined; refresh_token := VUndefined;
                 user := None; message := VUndefined; details := VUndefined |})
    as (_ & _ & _ & Hu); [lia|].
  apply Hu. by left.
Defined.

(** ** Login, logout and the requests in between *)

Section session_calls.
Context {J : Type} `{!JSON J}.
Implicit Types (w : world) (cfg orig rq : config) (d : body J)
  (od : option (body J)) (o : net_outcome J) (st : Z) (e : js_error J)
  (os later : list (net_outcome J)).

Lemma answers_cons (wt : world * task J) o os :
  answers wt (o :: os) = answers (deliver wt.1 wt.2 o) os.
Proof. done. Qed.

Lemma answers_fulfilled w cfg st od later :
  (200 ≤ st < 300)%Z →
  answers (api w cfg) (Responded st od :: later)
  = (send (ApiCall (request_interceptor (localStorage w) cfg)) w,
     Resolved {| status := st; data := od |}).
Proof.
  intros Hst. rewrite answers_cons. unfold api. cbn [fst snd deliver].
  rewrite settle_fulfilled by done. by rewrite answers_settled.
Qed.

(** A first answer that is an error but not a 401. *)
Lemma answers_rejected w cfg o e later :
  settle (request_interceptor (localStorage w) cfg) o = inr e →
  (∀ od, o ≠ Responded 401 od) →
  answers (api w cfg) (o :: later)
  = (send (ApiCall (request_interceptor (localStorage w) cfg)) w, Rejected e).
Proof.
  intros He Hno. rewrite answers_cons. unfold api. cbn [fst snd].
  rewrite deliver_quiet.
  - rewrite He. by rewrite answers_settled.
  - intros (od & -> & _). by apply (Hno od).
Qed.

Lemma login_fulfilled w (credentials : string) st d later :
  (200 ≤ st < 300)%Z →
  authAPI_login w credentials (Responded st (Some d) :: later)
  = (with_storage (tokenManager.setUser (user d))
       (with_storage (tokenManager.setRefreshToken (refresh_token d))
          (with_storage (tokenManager.setToken (access_token d))
             (send (ApiCall (request_interceptor (localStorage w)
                               (authAPI.login_request credentials))) w))),
     Fulfilled d).
Proof.
  intros Hst. unfold authAPI_login.
  by rewrite answers_fulfilled by done.
Qed.

(** X6. A login call whose first answer is a 2xx response with a body
    writes the three entries as [String(access_token)],
    [String(refresh_token)] and [String(JSON.stringify(user))], over
    whatever the store held, leaves every other key alone and fulfils the
    promise with the body; one call has gone out and [/login] has not been
    assigned. *)
Theorem login_writes_the_record w (credentials : string) st d later :
  (200 ≤ st < 300)%Z →
  let after := authAPI_login w credentials (Responded st (Some d) :: later) in
  let ls' := localStorage after.1 in
  after.2 = Fulfilled d
  ∧ ls' !! TOKEN_KEY = Some (to_string (access_token d))
  ∧ ls' !! REFRESH_TOKEN_KEY = Some (to_string (refresh_token d))
  ∧ ls' !! USER_KEY = Some (to_string (tokenManager.json_stringify (user d)))
  ∧ (∀ k, k ≠ TOKEN_KEY → k ≠ REFRESH_TOKEN_KEY → k ≠ USER_KEY →
       ls' !! k = localStorage w !! k)
  ∧ api_calls after.1 = api_calls w + 1
  ∧ refresh_calls after.1 = refresh_calls w
  ∧ location after.1 = location w.
Proof.
  intros Hst. cbv zeta. rewrite login_fulfilled by done. cbn [fst snd].
  unfold tokenManager.setUser, tokenManager.setRefreshToken,
    tokenManager.setToken, setItem.
  split; [done|]. split.
  { simpl. rewrite !lookup_insert_ne by done. apply lookup_insert_eq. }
  split.
  { simpl. rewrite lookup_insert_ne by done. apply lookup_insert_eq. }
  split; [simpl; apply lookup_insert_eq|]. split.
  { intros k H1 H2 H3. simpl. by rewrite !lookup_insert_ne. }
  rewrite !api_calls_with_storage, !refresh_calls_with_storage,
    api_calls_send, refresh_calls_send. simpl. repeat split; lia.
Qed.

(** X7. A login call that fails writes nothing.  If its first answer is an
    error other than a 401 (any other status, or no response) the promise
    is rejected with that error; if it is a 2xx response with a [null]
    body the destructuring throws before the first write.  In both cases
    the store and [window.location] are as before. *)
Theorem failed_login_writes_nothing w (credentials : string) o later :
  (∀ od, o ≠ Responded 401 od) →
  refresh_fails o →
  let after := authAPI_login w credentials (o :: later) in
  (∃ e, after.2 = RejectedWith e)
  ∧ localStorage after.1 = localStorage w
  ∧ location after.1 = location w
  ∧ refresh_calls after.1 = refresh_calls w.
Proof.
  intros Hno Hfail. cbv zeta. unfold authAPI_login.
  destruct (settle (request_interceptor (localStorage w)
                      (authAPI.login_request credentials)) o)
    as [r|e] eqn:E.
  - destruct o as [st od|msg]; [|done]. simpl in E.
    destruct (200 <=? st)%Z eqn:Hlo; [|done].
    destruct (st <? 300)%Z eqn:Hhi; [|done].
    apply Z.leb_le in Hlo. apply Z.ltb_lt in Hhi.
    destruct od as [d|]; [exfalso; apply (Hfail st d); [done|lia]|].
    rewrite answers_fulfilled by lia. cbn [fst snd].
    unfold authAPI.login_resolved. cbn [data fst snd].
    split; [by eexists|]. by rewrite refresh_calls_send.
  - rewrite (answers_rejected _ _ _ e) by done. cbn [fst snd].
    split; [by eexists|]. rewrite refresh_calls_send. simpl.
    repeat split; lia.
Qed.

(** X8. A login call answered with a 401 (wrong password) while no refresh
    token is stored goes through the 401 branch of the response
    interceptor like any other request: the three entries are removed,
    [/login] is assigned once, no refresh call and no second login call
    are made, and the promise is rejected with the 401. *)
Theorem rejected_login_ends_session w (credentials : string) od later :
  localStorage w !! REFRESH_TOKEN_KEY = None →
  let sent :=
    request_interceptor (localStorage w) (authAPI.login_request credentials) in
  let after := authAPI_login w credentials (Responded 401 od :: later) in
  after.2 = RejectedWith (status_error (set_retry true sent) 401 od)
  ∧ localStorage after.1 = tokenManager.clearAll (localStorage w)
  ∧ location after.1
    = (location w ++ [("/login", tokenManager.clearAll (localStorage w))])%list
  ∧ wire after.1 = (wire w ++ [ApiCall sent])%list.
Proof.
  intros Hrt. cbv zeta. unfold authAPI_login.
  rewrite answers_cons. unfold api. cbn [fst snd].
  rewrite deliver_first_401_no_refresh;
    [|by rewrite request_interceptor_retry_flag|by left].
  by rewrite answers_settled.
Qed.

Lemma answers_left_deliver w (t : task J) o :
  ¬ settled t → (answers_left (deliver w t o).2 < answers_left t)%nat.
Proof.
  intros Ht. destruct t as [c|c rq|r|e]; [| |done..].
  - unfold deliver. destruct (settle c o) as [r|e] eqn:E.
    { simpl. destruct (_retry c); lia. }
    unfold on_rejected.
    destruct e as [c' resp q m|x]; [|simpl; destruct (_retry c); lia].
    assert (c' = c) as ->.
    { destruct o as [st od|msg]; simpl in E.
      - destruct (_ && _); [done|]. by injection E.
      - by injection E. }
    destruct (_retry c) eqn:Hr.
    { rewrite andb_false_r. simpl. rewrite Hr. lia. }
    destruct (is_401 resp); simpl; [|rewrite Hr; lia].
    destruct (tokenManager.getRefreshToken (localStorage w)) as [rt|];
      [|simpl; rewrite ?Hr; lia].
    destruct (truthy_str rt); simpl; rewrite ?Hr; lia.
  - cbn [deliver]. unfold on_refresh_settled, on_refresh_failed.
    destruct (settle rq o) as [r|e]; [|simpl; destruct (_retry c); lia].
    destruct (data r) as [d|]; [|simpl; destruct (_retry c); lia].
    unfold api. cbn [snd answers_left]. rewrite request_interceptor_retry_flag.
    simpl. destruct (_retry c); lia.
Qed.

Lemma settled_dec (t : task J) : settled t ∨ ¬ settled t.
Proof. destruct t; simpl; tauto. Qed.

(** After as many answers as [answers_left] counts, a task has settled. *)
Lemma answers_settle os : ∀ (wt : world * task J),
  (answers_left wt.2 ≤ length os)%nat → settled (answers wt os).2.
Proof.
  induction os as [|o os IH]; intros [w t] Hlen; simpl in Hlen.
  - destruct t as [c|c rq|r|e]; simpl in *; try done;
      destruct (_retry c); lia.
  - rewrite answers_cons. cbn [fst snd].
    destruct (settled_dec t) as [Ht|Ht].
    + rewrite deliver_settled by done. by rewrite answers_settled.
    + apply IH. pose proof (answers_left_deliver w t o Ht). lia.
Qed.

Lemma logout_settles w os :
  (3 ≤ length os)%nat →
  (authAPI_logout w os).2 = Fulfilled ()
  ∧ all_absent (localStorage (authAPI_logout w os).1).
Proof.
  intros Hlen. unfold authAPI_logout.
  assert (settled (answers (api w authAPI.logout_request) os).2) as Hs.
  { apply answers_settle. unfold api. cbn [snd answers_left].
    rewrite request_interceptor_retry_flag. simpl. lia. }
  destruct (answers (api w authAPI.logout_request) os) as [w' t].
  cbn [fst snd] in *.
  destruct t as [c|c rq|r|e]; [done..| |]; cbn [fst snd];
    (split; [done|apply clearAll_absent]).
Qed.

(** X9. [logout] never rejects and always ends on an empty record: once
    its call has settled, by a response or by any error, the three entries
    are absent and the promise is fulfilled; three answers are always
    enough for that. *)
Theorem logout_always_clears w os :
  let after := authAPI_logout w os in
  (after.2 = Pending ∨
   after.2 = Fulfilled () ∧ all_absent (localStorage after.1))
  ∧ ((3 ≤ length os)%nat →
     after.2 = Fulfilled () ∧ all_absent (localStorage after.1)).
Proof.
  cbv zeta. split; [|apply logout_settles].
  unfold authAPI_logout.
  destruct (answers (api w authAPI.logout_request) os) as [w' t].
  cbn [fst snd].
  destruct t as [c|c rq|r|e]; cbn [fst snd]; [by left..| |];
    (right; split; [done|apply clearAll_absent]).
Qed.

End session_calls.

Lemma login_writes_the_record_witness :
  let after :=
    authAPI_login (J:=option string) (sample_world ∅) "admin:admin123"
      [Responded 200 (Some (sample_body "t1"))] in
  after.2 = Fulfilled (sample_body "t1")
  ∧ localStorage after.1 !! TOKEN_KEY = Some "t1"
  ∧ localStorage after.1 !! REFRESH_TOKEN_KEY = Some "undefined".
Proof.
  destruct (login_writes_the_record (J:=option string) (sample_world ∅)
              "admin:admin123" 200 (sample_body "t1") [])
    as (Hp & Ht & Hr & _); [lia|].
  split; [exact Hp|]. split; [exact Ht|exact Hr].
Defined.

Lemma failed_login_writes_nothing_witness :
  localStorage
    (authAPI_login (J:=option string) (sample_world sample_store)
       "admin:wrong" [Responded 500 None]).1 = sample_store.
Proof.
  destruct (failed_login_writes_nothing (J:=option string)
              (sample_world sample_store) "admin:wrong" (Responded 500 None) [])
    as (_ & Hs & _).
  - intros od [=].
  - intros st d [=].
  - exact Hs.
Defined.

Lemma rejected_login_ends_session_witness :
  location
    (authAPI_login (J:=option string) (sample_world ∅) "admin:wrong"
       [Responded 401 None]).1 = [("/login", ∅)].
Proof.
  destruct (rejected_login_ends_session (J:=option string) (sample_world ∅)
              "admin:wrong" None []) as (_ & _ & Hl & _); [reflexivity|].
  exact Hl.
Defined.

Lemma logout_always_clears_witness :
  all_absent
    (localStorage
       (authAPI_logout (J:=option string) (sample_world sample_store)
          [Responded 401 None; NoResponse "Network Error";
           Responded 200 None]).1).
Proof.
  destruct (logout_always_clears (J:=option string)
              (sample_world sample_store)
              [Responded 401 None; NoResponse "Network Error";
               Responded 200 None]) as (_ & Hthree).
  apply Hthree. simpl. lia.
Defined.

Section session_and_requests.
Context {J : Type} `{!JSON J}.
Implicit Types (w : world) (cfg orig rq : config) (d : body J)
  (od : option (body J)) (o : net_outcome J) (st : Z) (e : js_error J)
  (os later : list (net_outcome J)).

Lemma all_absent_interceptor (ls : storage) cfg :
  all_absent ls → request_interceptor ls cfg = cfg.
Proof. intros (Ht & _). by apply request_interceptor_none. Qed.

(** X10. Requests follow the session.  After a login whose answer carries
    the non-empty access token [a], the client counts as authenticated and
    every request leaves with [Authorization: Bearer a]; after the logout
    that follows has settled, the client counts as unauthenticated, the
    request interceptor passes requests on untouched and [getUser] returns
    [null]. *)
Theorem requests_follow_the_session w (credentials : string) st d
    (a : string) later os cfg :
  (200 ≤ st < 300)%Z → access_token d = VStr a → a ≠ "" →
  (3 ≤ length os)%nat →
  let w1 :=
    (authAPI_login w credentials (Responded st (Some d) :: later)).1 in
  let w2 := (authAPI_logout w1 os).1 in
  apiUtils.isAuthenticated (localStorage w1) = true
  ∧ headers (request_interceptor (localStorage w1) cfg) !! "Authorization"
    = Some (bearer a)
  ∧ apiUtils.isAuthenticated (localStorage w2) = false
  ∧ request_interceptor (localStorage w2) cfg = cfg
  ∧ tokenManager.getUser (J:=J) (localStorage w2) = Ok jnull.
Proof.
  intros Hst Ha Hne Hlen. cbv zeta.
  destruct (logout_settles
              (authAPI_login w credentials (Responded st (Some d) :: later)).1
              os Hlen) as (_ & Habs).
  assert (localStorage
            (authAPI_login w credentials (Responded st (Some d) :: later)).1
          !! TOKEN_KEY = Some a) as Ht.
  { rewrite login_fulfilled by done. cbn [fst snd localStorage with_storage].
    unfold tokenManager.setUser, tokenManager.setRefreshToken,
      tokenManager.setToken, setItem.
    rewrite !lookup_insert_ne by done. rewrite lookup_insert_eq.
    by rewrite Ha. }
  split.
  { unfold apiUtils.isAuthenticated, tokenManager.getToken, getItem.
    rewrite Ht. simpl. by apply truthy_str_true. }
  split.
  { rewrite (request_interceptor_token _ _ a) by done. simpl.
    apply lookup_insert_eq. }
  split; [by apply all_absent_unauthenticated|].
  split; [by apply all_absent_interceptor|].
  apply getUser_absent. by destruct Habs as (_ & _ & Hu).
Qed.

End session_and_requests.

Lemma requests_follow_the_session_witness :
  let w1 :=
    (authAPI_login (J:=option string) (sample_world ∅) "admin:admin123"
       [Responded 200 (Some (sample_body "t1"))]).1 in
  let w2 :=
    (authAPI_logout (J:=option string) w1
       [NoResponse "timeout"; NoResponse "x"; NoResponse "y"]).1 in
  headers (request_interceptor (localStorage w1) sample_request)
    !! "Authorization" = Some "Bearer t1"
  ∧ request_interceptor (localStorage w2) sample_request = sample_request.
Proof.
  destruct (requests_follow_the_session (J:=option string) (sample_world ∅)
              "admin:admin123" 200 (sample_body "t1") "t1" []
              [NoResponse "timeout"; NoResponse "x"; NoResponse "y"]
              sample_request)
    as (_ & Hh & _ & Hq & _); [lia|reflexivity|discriminate|simpl; lia|].
  split; [exact Hh|exact Hq].
Defined.

(** ** Route guards *)

Section route_guards.
Variable matches : string → route.
Hypothesis matches_login : matches "/login" = LoginRoute.
Hypothesis matches_dashboard : matches "/dashboard" = DashboardRoute.

(** X11. The guards of [App.jsx] cannot send the browser in circles: from
    each of the three guarded routes, following at most one [<Navigate>]
    ends on the dashboard when [isAuthenticated()] holds and on the login
    page when it does not; the catch-all route renders its 404 page
    whatever the store. *)
Theorem guards_settle_in_one_hop (ls : storage) (r : route) :
  follow matches 1 ls r
  = Some match r with
         | CatchAllRoute => NotFoundPage
         | _ => if apiUtils.isAuthenticated ls
                then DashboardPage else LoginPage
         end.
Proof.
  destruct r; simpl; unfold PublicRoute, ProtectedRoute;
    destruct (apiUtils.isAuthenticated ls) eqn:Hauth; simpl;
    rewrite ?matches_login, ?matches_dashboard; simpl;
    unfold PublicRoute, ProtectedRoute; by rewrite ?Hauth.
Qed.

(** X12. Where the session events leave the browser: once the store has
    been cleared by a failed refresh (or a logout) every guarded route
    leads to the login page, and once an access token that is not the
    empty string has been stored every guarded route leads to the
    dashboard. *)
Theorem guards_after_session_events (ls : storage) (token : jsval) (r : route) :
  r ≠ CatchAllRoute →
  follow matches 1 (tokenManager.clearAll ls) r = Some LoginPage
  ∧ (to_string token ≠ "" →
     follow matches 1 (tokenManager.setToken token ls) r = Some DashboardPage).
Proof.
  intros Hr.
  assert (apiUtils.isAuthenticated (tokenManager.clearAll ls) = false) as Hc.
  { apply all_absent_unauthenticated, clearAll_absent. }
  split.
  - destruct r; [..|done]; simpl; unfold PublicRoute, ProtectedRoute;
      rewrite Hc; simpl; rewrite ?matches_login; simpl;
      unfold PublicRoute; by rewrite ?Hc.
  - intros Hne.
    assert (apiUtils.isAuthenticated (tokenManager.setToken token ls) = true)
      as Hs.
    { unfold apiUtils.isAuthenticated, tokenManager.getToken,
        tokenManager.setToken, getItem, setItem.
      rewrite lookup_insert_eq. simpl. by apply truthy_str_true. }
    destruct r; [..|done]; simpl; unfold PublicRoute, ProtectedRoute;
      rewrite Hs; simpl; rewrite ?matches_dashboard; simpl;
      unfold ProtectedRoute; by rewrite ?Hs.
Qed.

End route_guards.

Lemma guards_settle_in_one_hop_witness :
  follow literal_matches 1 sample_store RootRoute = Some DashboardPage
  ∧ follow literal_matches 1 ∅ DashboardRoute = Some LoginPage.
Proof.
  split.
  - exact (guards_settle_in_one_hop literal_matches eq_refl eq_refl
             sample_store RootRoute).
  - exact (guards_settle_in_one_hop literal_matches eq_refl eq_refl
             ∅ DashboardRoute).
Defined.

Lemma guards_after_session_events_witness :
  follow literal_matches 1 (tokenManager.clearAll sample_store) DashboardRoute
  = Some LoginPage
  ∧ follow literal_matches 1 (tokenManager.setToken (VStr "t1") ∅) LoginRoute
    = Some DashboardPage.
Proof.
  split.
  - apply (guards_after_session_events literal_matches eq_refl eq_refl
             sample_store (VStr "t1") DashboardRoute). discriminate.
  - apply (guards_after_session_events literal_matches eq_refl eq_refl
             ∅ (VStr "t1") LoginRoute); discriminate.
Defined.

(** ** What a request can cost *)

Section budgets.
Context {J : Type} `{!JSON J}.
Implicit Types (w : world) (cfg orig rq c : config) (d : body J)
  (od : option (body J)) (o : net_outcome J) (st : Z) (e : js_error J)
  (os later : list (net_outcome J)) (t : task J).

(** The error of a settled call carries the config of that call. *)
Lemma settle_error_config cfg o e :
  settle cfg o = inr e → ∃ resp q m, e = AxiosError cfg resp q m.
Proof.
  destruct o as [st od|msg]; simpl.
  - destruct (_ && _); [done|]. intros [= <-]. by eexists _, _, _.
  - intros [= <-]. by eexists _, _, _.
Qed.

Lemma signals_send (c : call) w : signals (send c w) = signals w.
Proof. done. Qed.

Lemma signals_with_storage f w : signals (with_storage f w) = signals w.
Proof. done. Qed.

(** One answer never costs a task more than its budgets allow. *)
Lemma deliver_within_budget w t o :
  (refresh_calls (deliver w t o).1 + refresh_budget (deliver w t o).2
     ≤ refresh_calls w + refresh_budget t)%nat
  ∧ (api_calls (deliver w t o).1 + send_budget (deliver w t o).2
       ≤ api_calls w + send_budget t)%nat
  ∧ (signals (deliver w t o).1 + signal_budget (deliver w t o).2
       ≤ signals w + signal_budget t)%nat.
Proof.
  destruct t as [c|c rq|r|e]; [| |simpl; lia..].
  - unfold deliver. destruct (settle c o) as [r|e] eqn:E.
    { simpl. lia. }
    destruct (settle_error_config _ _ _ E) as (resp & q & m & ->).
    unfold on_rejected.
    destruct (_retry c) eqn:Hr.
    { rewrite andb_false_r. simpl. lia. }
    destruct (is_401 resp); cbn [andb negb]; [|simpl; lia].
    destruct (tokenManager.getRefreshToken (localStorage w)) as [rt|].
    + destruct (truthy_str rt); cbn [fst snd].
      * rewrite refresh_calls_send, api_calls_send, signals_send.
        simpl. rewrite Hr. lia.
      * rewrite signals_end_session, api_calls_end_session,
          refresh_calls_end_session. simpl. rewrite Hr. lia.
    + cbn [fst snd].
      rewrite signals_end_session, api_calls_end_session,
        refresh_calls_end_session. simpl. rewrite Hr. lia.
  - cbn [deliver]. unfold on_refresh_settled, on_refresh_failed.
    destruct (settle rq o) as [r|e].
    + destruct (data r) as [d|]; cbn [fst snd].
      * unfold api. cbn [fst snd].
        rewrite refresh_calls_send, api_calls_send, signals_send,
          refresh_calls_with_storage, api_calls_with_storage,
          signals_with_storage.
        cbn [refresh_budget send_budget signal_budget is_refresh].
        rewrite request_interceptor_retry_flag. simpl.
        destruct (_retry c); lia.
      * rewrite signals_end_session, api_calls_end_session,
          refresh_calls_end_session. simpl. destruct (_retry c); lia.
    + cbn [fst snd].
      rewrite signals_end_session, api_calls_end_session,
        refresh_calls_end_session. simpl. destruct (_retry c); lia.
Qed.

Lemma answers_within_budget os : ∀ (wt : world * task J),
  (refresh_calls (answers wt os).1 + refresh_budget (answers wt os).2
     ≤ refresh_calls wt.1 + refresh_budget wt.2)%nat
  ∧ (api_calls (answers wt os).1 + send_budget (answers wt os).2
       ≤ api_calls wt.1 + send_budget wt.2)%nat
  ∧ (signals (answers wt os).1 + signal_budget (answers wt os).2
       ≤ signals wt.1 + signal_budget wt.2)%nat.
Proof.
  induction os as [|o os IH]; intros [w t]; [simpl; lia|].
  rewrite answers_cons. cbn [fst snd].
  destruct (IH (deliver w t o)) as (H1 & H2 & H3).
  destruct (deliver_within_budget w t o) as (D1 & D2 & D3).
  lia.
Qed.

(** X13. Whatever the network answers, and in whatever order, one call of
    [api] makes at most one refresh call, puts the request on the wire at
    most twice and assigns [/login] at most once; after three answers its
    promise has settled, and nothing that arrives later changes the world
    any more. *)
Theorem request_is_bounded w cfg os later :
  let r := answers (api w cfg) os in
  (refresh_calls r.1 ≤ refresh_calls w + 1)%nat
  ∧ (api_calls r.1 ≤ api_calls w + 2)%nat
  ∧ (signals r.1 ≤ signals w + 1)%nat
  ∧ ((3 ≤ length os)%nat →
     settled r.2 ∧ answers (api w cfg) (os ++ later)%list = r).
Proof.
  cbv zeta.
  destruct (answers_within_budget os (api w cfg)) as (H1 & H2 & H3).
  assert (refresh_calls (api (J:=J) w cfg).1 = refresh_calls w) as E1.
  { unfold api. cbn [fst]. rewrite refresh_calls_send. simpl. lia. }
  assert (api_calls (api (J:=J) w cfg).1 = (api_calls w + 1)%nat) as E2.
  { unfold api. cbn [fst]. by rewrite api_calls_send. }
  assert (signals (api (J:=J) w cfg).1 = signals w) as E3 by done.
  assert ((refresh_budget (api (J:=J) w cfg).2 ≤ 1
           ∧ send_budget (api (J:=J) w cfg).2 ≤ 1
           ∧ signal_budget (api (J:=J) w cfg).2 ≤ 1)%nat) as (B1 & B2 & B3).
  { unfold api. cbn [snd refresh_budget send_budget signal_budget].
    destruct (_retry _); lia. }
  split; [lia|]. split; [lia|]. split; [lia|].
  intros Hlen.
  assert (settled (answers (api w cfg) os).2) as Hs.
  { apply answers_settle. unfold api. cbn [snd answers_left].
    rewrite request_interceptor_retry_flag. destruct (_retry cfg); lia. }
  split; [exact Hs|].
  rewrite answers_app.
  destruct (answers (api w cfg) os) as [w' t]. by apply answers_settled.
Qed.

Lemma sum_list_with_insert (f : task J → nat) (l : list (task J)) : ∀ i x y,
  l !! i = Some x →
  (sum_list_with f (<[i:=y]> l) + f x = sum_list_with f l + f y)%nat.
Proof.
  induction l as [|z l IH]; intros i x y Hi; [done|].
  destruct i as [|i]; simpl in *.
  - injection Hi as ->. lia.
  - specialize (IH i x y Hi). lia.
Qed.

Lemma sys_deliver_potential (s : system J) ev :
  (potential refresh_calls refresh_budget (sys_deliver s ev)
     ≤ potential refresh_calls refresh_budget s)%nat
  ∧ (potential api_calls send_budget (sys_deliver s ev)
       ≤ potential api_calls send_budget s)%nat
  ∧ (potential signals signal_budget (sys_deliver s ev)
       ≤ potential signals signal_budget s)%nat.
Proof.
  unfold sys_deliver, potential.
  destruct (tasks s !! ev.1) as [t|] eqn:Ht; [|lia].
  pose proof (deliver_within_budget (shared s) t ev.2) as (D1 & D2 & D3).
  destruct (deliver (shared s) t ev.2) as [w' t']. cbn [fst snd] in *.
  cbn [shared tasks].
  pose proof (sum_list_with_insert refresh_budget _ _ _ t' Ht).
  pose proof (sum_list_with_insert send_budget _ _ _ t' Ht).
  pose proof (sum_list_with_insert signal_budget _ _ _ t' Ht).
  lia.
Qed.

Lemma run_potential schedule : ∀ (s : system J),
  (potential refresh_calls refresh_budget (run s schedule)
     ≤ potential refresh_calls refresh_budget s)%nat
  ∧ (potential api_calls send_budget (run s schedule)
       ≤ potential api_calls send_budget s)%nat
  ∧ (potential signals signal_budget (run s schedule)
       ≤ potential signals signal_budget s)%nat.
Proof.
  induction schedule as [|ev schedule IH]; intros s; [simpl; lia|].
  unfold run in *. cbn [foldl].
  destruct (IH (sys_deliver s ev)) as (H1 & H2 & H3).
  destruct (sys_deliver_potential s ev) as (D1 & D2 & D3). lia.
Qed.

Lemma api_calls_sends (cs : list call) w :
  api_calls (sends cs w)
  = (api_calls w + length (filter (λ x, is_refresh x = false) cs))%nat.
Proof. unfold api_calls, sends. simpl. by rewrite filter_app, length_app. Qed.

Lemma filter_api_api (cfgs : list config) :
  filter (λ x, is_refresh x = false) (ApiCall <$> cfgs) = ApiCall <$> cfgs.
Proof.
  induction cfgs as [|c0 cfgs IH]; [done|].
  rewrite fmap_cons, filter_cons_True by done. by rewrite IH.
Qed.

Lemma budgets_at_start (cfgs : list config) :
  (sum_list_with refresh_budget (AwaitResponse (J:=J) <$> cfgs) ≤ length cfgs
   ∧ sum_list_with send_budget (AwaitResponse (J:=J) <$> cfgs) ≤ length cfgs
   ∧ sum_list_with signal_budget (AwaitResponse (J:=J) <$> cfgs)
     ≤ length cfgs)%nat.
Proof.
  induction cfgs as [|c cfgs (I1 & I2 & I3)]; [simpl; lia|].
  rewrite fmap_cons.
  cbn [sum_list_with length refresh_budget send_budget signal_budget].
  destruct (_retry c); lia.
Qed.

(** X14. The same holds with any number of requests in flight and under
    every interleaving of their answers: N calls of [api] make at most N
    refresh calls, put at most 2N requests on the wire and assign [/login]
    at most N times. *)
Theorem requests_are_bounded w (cfgs : list config)
    (schedule : list (nat * net_outcome J)) :
  let s := run (start w cfgs) schedule in
  (refresh_calls (shared s) ≤ refresh_calls w + length cfgs)%nat
  ∧ (api_calls (shared s) ≤ api_calls w + 2 * length cfgs)%nat
  ∧ (signals (shared s) ≤ signals w + length cfgs)%nat.
Proof.
  cbv zeta.
  destruct (run_potential schedule (start w cfgs)) as (H1 & H2 & H3).
  unfold potential in H1, H2, H3.
  assert (shared (start (J:=J) w cfgs)
          = sends (ApiCall <$>
                     (request_interceptor (localStorage w) <$> cfgs)) w) as Es.
  { by rewrite start_eq. }
  assert (tasks (start (J:=J) w cfgs)
          = AwaitResponse <$>
              (request_interceptor (localStorage w) <$> cfgs)) as Et.
  { by rewrite start_eq. }
  rewrite Es, Et in H1, H2, H3.
  rewrite refresh_calls_sends, filter_refresh_api in H1.
  rewrite api_calls_sends, filter_api_api, !length_fmap in H2.
  destruct (budgets_at_start (request_interceptor (localStorage w) <$> cfgs))
    as (B1 & B2 & B3).
  rewrite length_fmap in B1, B2, B3.
  change (signals (sends (ApiCall <$>
                     (request_interceptor (localStorage w) <$> cfgs)) w))
    with (signals w) in H3.
  simpl in H1. lia.
Qed.

End budgets.

Lemma request_is_bounded_witness :
  let r :=
    answers (J:=option string) (api (sample_world sample_store) sample_request)
      [Responded 401 None; Responded 200 (Some (sample_body "t1"));
       Responded 401 None] in
  settled r.2
  ∧ answers (J:=option string) (api (sample_world sample_store) sample_request)
      ([Responded 401 None; Responded 200 (Some (sample_body "t1"));
        Responded 401 None] ++ [Responded 200 None])%list = r.
Proof.
  destruct (request_is_bounded (J:=option string) (sample_world sample_store)
              sample_request
              [Responded 401 None; Responded 200 (Some (sample_body "t1"));
               Responded 401 None] [Responded 200 None]) as (_ & _ & _ & Hs).
  apply Hs. simpl. lia.
Defined.

(** ** Concurrent refresh answers and the store *)

Section last_write.
Context {J : Type} `{!JSON J}.
Implicit Types (w : world) (cfg orig rq : config) (d : body J)
  (os later : list (net_outcome J)).

(** X15. With several refresh calls in flight the store ends up with the
    access token of the refresh answer that arrives last, whichever
    request it belongs to: whatever the other requests have done before,
    and in whatever order, when a fulfilled refresh answer reaches a
    request that is still waiting for its refresh call, the access-token
    entry is that answer's token afterwards and every other key reads as
    just before. *)
Theorem last_refresh_answer_wins (s : system J)
    (schedule : list (nat * net_outcome J)) (i : nat) orig rq (st : Z) d :
  tasks s !! i = Some (AwaitRefresh orig rq) →
  i ∉ schedule.*1 →
  (200 ≤ st < 300)%Z →
  let before := run s schedule in
  let after := run s (schedule ++ [(i, Responded st (Some d))])%list in
  localStorage (shared after) !! TOKEN_KEY
  = Some (to_string (access_token d))
  ∧ (∀ k, k ≠ TOKEN_KEY →
       localStorage (shared after) !! k = localStorage (shared before) !! k).
Proof.
  intros Hi Hother Hst. cbv zeta.
  rewrite run_snoc, sys_deliver_shared. cbn [fst snd].
  rewrite run_other, Hi by done. cbn [deliver].
  rewrite on_refresh_fulfilled by done. cbv zeta.
  cbn [fst localStorage send with_storage].
  unfold tokenManager.setToken, setItem.
  split; [apply lookup_insert_eq|].
  intros k Hk. by rewrite lookup_insert_ne.
Qed.

(** X16. [authAPI.refreshToken] is the refresh call without the safety net
    of the interceptor: it is sent even when no refresh token is stored
    (as [Bearer null]), a rejection is passed on with the store and
    [window.location] untouched, and an answer with a body replaces the
    access token only. *)
Theorem refreshToken_has_no_guard w o :
  let after := authAPI_refreshToken w o in
  let rq :=
    refresh_request (item_val (localStorage w !! REFRESH_TOKEN_KEY)) in
  wire after.1 = (wire w ++ [RefreshCall rq])%list
  ∧ location after.1 = location w
  ∧ (localStorage w !! REFRESH_TOKEN_KEY = None →
     headers rq !! "Authorization" = Some "Bearer null")
  ∧ (refresh_fails o →
     localStorage after.1 = localStorage w ∧ ∃ e, after.2 = RejectedWith e)
  ∧ (∀ st d, o = Responded st (Some d) → (200 ≤ st < 300)%Z →
     after.2 = Fulfilled d
     ∧ localStorage after.1
       = tokenManager.setToken (access_token d) (localStorage w)).
Proof.
  cbv zeta. unfold authAPI_refreshToken, authAPI.refreshToken_request,
    tokenManager.getRefreshToken, getItem.
  split; [|split; [|split; [|split]]].
  - destruct (settle _ o) as [r|e]; [|done].
    unfold authAPI.refreshToken_resolved. by destruct (data r).
  - destruct (settle _ o) as [r|e]; [|done].
    unfold authAPI.refreshToken_resolved. by destruct (data r).
  - by intros ->.
  - intros Hfail. destruct (settle _ o) as [r|e] eqn:E; [|by eauto].
    destruct o as [st od|msg]; [|done]. simpl in E.
    destruct (200 <=? st)%Z eqn:Hlo; [|done].
    destruct (st <? 300)%Z eqn:Hhi; [|done].
    apply Z.leb_le in Hlo. apply Z.ltb_lt in Hhi. injection E as <-.
    destruct od as [d|]; [exfalso; apply (Hfail st d); [done|lia]|].
    simpl. by eauto.
  - intros st d -> Hst. rewrite settle_fulfilled by done. done.
Qed.

End last_write.

Lemma last_refresh_answer_wins_witness :
  let s :=
    all_unauthorized (J:=option string) (sample_world sample_store)
      [sample_request; sample_request] in
  localStorage
    (shared (run s [(1, refreshed (sample_body "t2"));
                    (0, refreshed (sample_body "t1"))]))
  !! TOKEN_KEY = Some "t1".
Proof.
  intros s.
  destruct (last_refresh_answer_wins (J:=option string) s
              [(1, refreshed (sample_body "t2"))] 0
              (set_retry true
                 (request_interceptor sample_store sample_request))
              (refresh_request (VStr "r0"))
              200 (sample_body "t1")) as (Ht & _).
  - reflexivity.
  - apply not_elem_of_cons. split; [discriminate|apply not_elem_of_nil].
  - lia.
  - exact Ht.
Defined.

Lemma refreshToken_has_no_guard_witness :
  headers (refresh_request (item_val ((∅ : storage) !! REFRESH_TOKEN_KEY)))
    !! "Authorization" = Some "Bearer null"
  ∧ localStorage
      (authAPI_refreshToken (J:=option string) (sample_world sample_store)
         (Responded 401 None)).1 = sample_store.
Proof.
  destruct (refreshToken_has_no_guard (J:=option string) (sample_world ∅)
              (Responded 401 None)) as (_ & _ & Hn & _).
  destruct (refreshToken_has_no_guard (J:=option string)
              (sample_world sample_store) (Responded 401 None))
    as (_ & _ & _ & Hf & _).
  split.
  - apply Hn. reflexivity.
  - apply Hf. intros st d [=].
Defined.

(** ** The credential store as a key-value store *)

Section store_laws.
Context {J : Type} `{!JSON J}.

(** X17. [clearAll] removes the three credential keys and nothing else:
    every other key of [localStorage] reads as before; it is idempotent,
    and it is what the three single [remove] calls do together, in any
    order. *)
Theorem clearAll_removes_exactly_three (ls : storage) (k : string) :
  (k ≠ TOKEN_KEY → k ≠ REFRESH_TOKEN_KEY → k ≠ USER_KEY →
     tokenManager.clearAll ls !! k = ls !! k)
  ∧ (k = TOKEN_KEY ∨ k = REFRESH_TOKEN_KEY ∨ k = USER_KEY →
     tokenManager.clearAll ls !! k = None)
  ∧ tokenManager.clearAll (tokenManager.clearAll ls) = tokenManager.clearAll ls
  ∧ tokenManager.removeToken
      (tokenManager.removeRefreshToken (tokenManager.removeUser ls))
    = tokenManager.clearAll ls
  ∧ tokenManager.removeRefreshToken
      (tokenManager.removeUser (tokenManager.removeToken ls))
    = tokenManager.clearAll ls.
Proof.
  split; [|split; [|split; [|split]]].
  - intros H1 H2 H3. rewrite clearAll_lookup. case_decide; [tauto|done].
  - intros Hk. rewrite clearAll_lookup. by case_decide.
  - apply map_eq. intros k'. rewrite !clearAll_lookup. by case_decide.
  - unfold tokenManager.clearAll, tokenManager.removeToken,
      tokenManager.removeRefreshToken, tokenManager.removeUser, removeItem.
    apply map_eq. intros k'. rewrite !lookup_delete. repeat case_decide; done.
  - unfold tokenManager.clearAll, tokenManager.removeToken,
      tokenManager.removeRefreshToken, tokenManager.removeUser, removeItem.
    apply map_eq. intros k'. rewrite !lookup_delete. repeat case_decide; done.
Qed.

(** X18. The access-token entry is a register: [getToken] returns the
    string form of the last value set, a [setToken] overwrites the one
    before it, [removeToken] undoes any number of them, and neither touches
    the refresh-token or user entries. *)
Theorem token_entry_is_a_register (ls : storage) (a b : jsval) :
  tokenManager.getToken (tokenManager.setToken a ls) = Some (to_string a)
  ∧ tokenManager.setToken b (tokenManager.setToken a ls)
    = tokenManager.setToken b ls
  ∧ tokenManager.removeToken (tokenManager.setToken a ls)
    = tokenManager.removeToken ls
  ∧ tokenManager.getToken (tokenManager.removeToken ls) = None
  ∧ tokenManager.getRefreshToken (tokenManager.setToken a ls)
    = tokenManager.getRefreshToken ls
  ∧ tokenManager.getRefreshToken (tokenManager.removeToken ls)
    = tokenManager.getRefreshToken ls
  ∧ tokenManager.getUser (J:=J) (tokenManager.setToken a ls)
    = tokenManager.getUser ls
  ∧ tokenManager.getUser (J:=J) (tokenManager.removeToken ls)
    = tokenManager.getUser ls.
Proof.
  unfold tokenManager.getToken, tokenManager.setToken,
    tokenManager.removeToken, tokenManager.getRefreshToken,
    tokenManager.getUser, getItem, setItem, removeItem.
  rewrite lookup_insert_eq, insert_insert_eq, delete_insert_eq,
    lookup_delete_eq.
  rewrite !(lookup_insert_ne _ TOKEN_KEY) by done.
  rewrite !(lookup_delete_ne _ TOKEN_KEY) by done.
  done.
Qed.

(** X19. [getUser] never returns anything but [null] or what [JSON.parse]
    makes of the stored text: it returns [null] when the user entry is
    missing or empty, the parsed value when the text parses, and throws a
    SyntaxError exactly when the entry is a non-empty text that does not
    parse. *)
Theorem getUser_cases (ls : storage) :
  (ls !! USER_KEY = None ∨ ls !! USER_KEY = Some "" →
     tokenManager.getUser (J:=J) ls = Ok jnull)
  ∧ (∀ text j, ls !! USER_KEY = Some text → text ≠ "" →
       parse text = Some j → tokenManager.getUser ls = Ok j)
  ∧ ((∃ x, tokenManager.getUser (J:=J) ls = Throw x) ↔
       ∃ text, ls !! USER_KEY = Some text ∧ text ≠ ""
               ∧ parse (J:=J) text = None).
Proof.
  unfold tokenManager.getUser, getItem.
  split; [|split].
  - by intros [-> | ->].
  - intros text j -> Hne Hp. apply truthy_str_true in Hne as ->.
    by rewrite Hp.
  - split.
    + intros [x Hx]. destruct (ls !! USER_KEY) as [text|]; [|done].
      destruct (truthy_str text) eqn:Ht; [|done].
      destruct (parse text) eqn:Hp; [done|].
      exists text. by apply truthy_str_true in Ht.
    + intros (text & -> & Hne & Hp). apply truthy_str_true in Hne as ->.
      rewrite Hp. by eexists.
Qed.

(** X20. A login answer without a [user] poisons the user entry:
    [setUser(undefined)] stores the text [undefined], which [JSON.parse]
    rejects, so every later [getUser] (and [apiUtils.getCurrentUser])
    throws, although the login itself succeeded and the client counts as
    authenticated when the access token is not empty. *)
Theorem login_without_user_poisons_getUser
    (w : world) (credentials : string) (st : Z) (d : body J)
    (later : list (net_outcome J)) :
  parse (J:=J) "undefined" = None →
  (200 ≤ st < 300)%Z → user d = None →
  let after := authAPI_login w credentials (Responded st (Some d) :: later) in
  after.2 = Fulfilled d
  ∧ localStorage after.1 !! USER_KEY = Some "undefined"
  ∧ (∃ x, apiUtils.getCurrentUser (J:=J) (localStorage after.1) = Throw x)
  ∧ (to_string (access_token d) ≠ "" →
     apiUtils.isAuthenticated (localStorage after.1) = true).
Proof.
  intros Hp Hst Hu. cbv zeta. rewrite login_fulfilled by done.
  cbn [fst snd localStorage with_storage]. rewrite Hu.
  unfold apiUtils.getCurrentUser, tokenManager.getUser, apiUtils.isAuthenticated,
    tokenManager.getToken, tokenManager.setUser,
    tokenManager.setRefreshToken, tokenManager.setToken, getItem, setItem.
  rewrite lookup_insert_eq. simpl. rewrite Hp.
  split; [done|]. split; [done|]. split; [by eexists|].
  intros Hne. rewrite !lookup_insert_ne by done. rewrite lookup_insert_eq.
  simpl. by apply truthy_str_true.
Qed.

End store_laws.

Lemma clearAll_removes_exactly_three_witness :
  tokenManager.clearAll (<["theme" := "dark"]> sample_store) !! "theme"
  = Some "dark"
  ∧ tokenManager.clearAll (<["theme" := "dark"]> sample_store) !! TOKEN_KEY
    = None.
Proof.
  destruct (clearAll_removes_exactly_three (<["theme" := "dark"]> sample_store)
              "theme") as (Hk & _).
  destruct (clearAll_removes_exactly_three (<["theme" := "dark"]> sample_store)
              TOKEN_KEY) as (_ & Hn & _).
  split.
  - rewrite Hk by discriminate. reflexivity.
  - apply Hn. by left.
Defined.

Lemma getUser_cases_witness :
  tokenManager.getUser (J:=option string) ∅ = Ok None
  ∧ ∃ x, tokenManager.getUser (J:=option string) {[USER_KEY := "{"]} = Throw x.
Proof.
  destruct (getUser_cases (J:=option string) ∅) as (Hn & _).
  destruct (getUser_cases (J:=option string) {[USER_KEY := "{"]})
    as (_ & _ & Ht).
  split.
  - apply Hn. by left.
  - apply Ht. exists "{". split; [reflexivity|split; [discriminate|reflexivity]].
Defined.

Lemma login_without_user_poisons_getUser_witness :
  ∃ x,
    apiUtils.getCurrentUser (J:=option string)
      (localStorage
         (authAPI_login (J:=option string) (sample_world ∅) "admin:admin123"
            [Responded 200 (Some (sample_body "t1"))]).1) = Throw x.
Proof.
  destruct (login_without_user_poisons_getUser (J:=option string)
              (sample_world ∅) "admin:admin123" 200 (sample_body "t1") [])
    as (_ & _ & Hx & _); [reflexivity|lia|reflexivity|].
  exact Hx.
Defined.

(** ** The task list of the dashboard *)

Section task_list_facts.
Context {V : Type} `{EqDecision V} (undefined : V).
Implicit Types (task updates : gmap string V) (tasks prev : list (gmap string V))
  (taskId status : V).

Lemma prop_spread task updates k :
  prop undefined k (spread task updates)
  = match updates !! k with
    | Some v => v
    | None => prop undefined k task
    end.
Proof.
  unfold prop, spread. rewrite lookup_union.
  destruct (updates !! k) as [v|] eqn:Hu; simpl.
  - by destruct (task !! k).
  - by destruct (task !! k).
Qed.

Lemma spread_twice task updates :
  spread (spread task updates) updates = spread task updates.
Proof.
  unfold spread. apply map_eq. intros k. rewrite !lookup_union.
  by destruct (updates !! k), (task !! k).
Qed.

(** X21. The local update of [handleTaskUpdate] keeps the list in place:
    same length, same order; a task whose [id] differs from [taskId] is
    handed on untouched; a task with that [id] reads the updated value for
    every property named in [updates] and its old value for every other;
    applying the same update a second time changes nothing. *)
Theorem update_tasks_is_local taskId updates prev (i : nat) task (k : string) :
  length (update_tasks undefined taskId updates prev) = length prev
  ∧ update_tasks undefined taskId updates
      (update_tasks undefined taskId updates prev)
    = update_tasks undefined taskId updates prev
  ∧ (prev !! i = Some task →
     ∃ task',
       update_tasks undefined taskId updates prev !! i = Some task'
       ∧ (prop undefined "id" task ≠ taskId → task' = task)
       ∧ (prop undefined "id" task = taskId →
          prop undefined k task'
          = match updates !! k with
            | Some v => v
            | None => prop undefined k task
            end)).
Proof.
  unfold update_tasks. split; [by rewrite length_fmap|]. split.
  - rewrite <- list_fmap_compose. apply list_fmap_ext.
    intros _ t _. simpl.
    destruct (decide (prop undefined "id" t = taskId)) as [Ht|Ht].
    + destruct (decide (prop undefined "id" (spread t updates) = taskId));
        [apply spread_twice|done].
    + by rewrite decide_False.
  - intros Hi. rewrite list_lookup_fmap, Hi. simpl. eexists. split; [done|].
    split.
    + intros Hne. by rewrite decide_False.
    + intros Heq. rewrite decide_True by done. apply prop_spread.
Qed.

(** X22. After the status of the tasks with a given [id] has been set to
    [status], [getTasksByStatus(status)] returns, in list order, the
    updated copies of exactly the tasks that have the [id] or had the
    status already, and [getTasksByStatus] of every other status returns
    what it returned before minus the tasks with that [id]. *)
Theorem status_update_moves_tasks taskId status status' tasks :
  let updated :=
    update_tasks undefined taskId {["status" := status]} tasks in
  getTasksByStatus undefined updated status
  = update_tasks undefined taskId {["status" := status]}
      (filter (λ task, prop undefined "id" task = taskId
                       ∨ prop undefined "status" task = status) tasks)
  ∧ (status' ≠ status →
     getTasksByStatus undefined updated status'
     = filter (λ task, prop undefined "id" task ≠ taskId)
         (getTasksByStatus undefined tasks status')).
Proof.
  cbv zeta. unfold getTasksByStatus, update_tasks. split.
  - induction tasks as [|t tasks IH]; [done|].
    rewrite fmap_cons.
    destruct (decide (prop undefined "id" t = taskId)) as [Ht|Ht].
    + rewrite filter_cons_True.
      2:{ rewrite prop_spread. by rewrite lookup_singleton_eq. }
      rewrite (filter_cons_True _ t tasks) by (by left).
      rewrite fmap_cons, decide_True by done. by rewrite IH.
    + destruct (decide (prop undefined "status" t = status)) as [Hs|Hs].
      * rewrite filter_cons_True by done.
        rewrite (filter_cons_True _ t tasks) by (by right).
        rewrite fmap_cons, decide_False by done. by rewrite IH.
      * rewrite filter_cons_False by done.
        rewrite (filter_cons_False _ t tasks) by tauto. exact IH.
  - intros Hne. induction tasks as [|t tasks IH]; [done|].
    rewrite fmap_cons.
    destruct (decide (prop undefined "id" t = taskId)) as [Ht|Ht].
    + rewrite filter_cons_False.
      2:{ rewrite prop_spread, lookup_singleton_eq. congruence. }
      destruct (decide (prop undefined "status" t = status')) as [Hs|Hs].
      * rewrite (filter_cons_True _ t tasks) by done.
        rewrite filter_cons_False by (intros Hc; by apply Hc). exact IH.
      * rewrite (filter_cons_False _ t tasks) by done. exact IH.
    + destruct (decide (prop undefined "status" t = status')) as [Hs|Hs].
      * rewrite !filter_cons_True by done. by rewrite IH.
      * rewrite !filter_cons_False by done. exact IH.
Qed.

(** X23. The three sections of the dashboard never show a task twice and
    may hide some: for three different statuses the sizes of the sections
    add up to the number of tasks minus those whose status is none of the
    three, which count in the total but appear in no section. *)
Theorem sections_partition_known_statuses (s1 s2 s3 : V) tasks :
  s1 ≠ s2 → s1 ≠ s3 → s2 ≠ s3 →
  (length (getTasksByStatus undefined tasks s1)
   + length (getTasksByStatus undefined tasks s2)
   + length (getTasksByStatus undefined tasks s3)
   + length (filter (λ task, prop undefined "status" task ≠ s1
                             ∧ prop undefined "status" task ≠ s2
                             ∧ prop undefined "status" task ≠ s3) tasks)
   = length tasks)%nat.
Proof.
  intros H12 H13 H23. unfold getTasksByStatus.
  induction tasks as [|t tasks IH]; [done|].
  destruct (decide (prop undefined "status" t = s1)) as [E1|N1].
  - rewrite (filter_cons_True (λ task, prop undefined "status" task = s1))
      by done.
    rewrite !filter_cons_False; [simpl; lia|rewrite E1; tauto|congruence..].
  - rewrite (filter_cons_False (λ task, prop undefined "status" task = s1))
      by done.
    destruct (decide (prop undefined "status" t = s2)) as [E2|N2].
    + rewrite (filter_cons_True (λ task, prop undefined "status" task = s2))
        by done.
      rewrite !filter_cons_False; [simpl; lia|rewrite E2; tauto|congruence].
    + rewrite (filter_cons_False (λ task, prop undefined "status" task = s2))
        by done.
      destruct (decide (prop undefined "status" t = s3)) as [E3|N3].
      * rewrite (filter_cons_True (λ task, prop undefined "status" task = s3))
          by done.
        rewrite filter_cons_False; [simpl; lia|rewrite E3; tauto].
      * rewrite (filter_cons_False (λ task, prop undefined "status" task = s3))
          by done.
        rewrite filter_cons_True by done. simpl. lia.
Qed.

End task_list_facts.

Lemma update_tasks_is_local_witness :
  update_tasks VUndefined (VStr "2") {["status" := VStr "completed"]}
    [sample_task "1" "pending"; sample_task "2" "pending"]
  !! 0 = Some (sample_task "1" "pending").
Proof.
  destruct (update_tasks_is_local VUndefined (VStr "2")
              {["status" := VStr "completed"]}
              [sample_task "1" "pending"; sample_task "2" "pending"]
              0 (sample_task "1" "pending") "status")
    as (_ & _ & Hi).
  destruct (Hi eq_refl) as (task' & Hl & Hsame & _).
  rewrite Hl. f_equal. apply Hsame. by vm_compute.
Defined.

Lemma status_update_moves_tasks_witness :
  getTasksByStatus VUndefined
    (update_tasks VUndefined (VStr "2") {["status" := VStr "completed"]}
       [sample_task "1" "pending"; sample_task "2" "pending"])
    (VStr "pending")
  = filter (λ task, prop VUndefined "id" task ≠ VStr "2")
      (getTasksByStatus VUndefined
         [sample_task "1" "pending"; sample_task "2" "pending"]
         (VStr "pending")).
Proof.
  apply (proj2 (status_update_moves_tasks VUndefined (VStr "2")
                  (VStr "completed") (VStr "pending")
                  [sample_task "1" "pending"; sample_task "2" "pending"])).
  discriminate.
Defined.

Lemma sections_partition_known_statuses_witness :
  (length (getTasksByStatus VUndefined
             [sample_task "1" "pending"; sample_task "2" "archived"]
             (VStr "pending"))
   + length (getTasksByStatus VUndefined
               [sample_task "1" "pending"; sample_task "2" "archived"]
               (VStr "in_progress"))
   + length (getTasksByStatus VUndefined
               [sample_task "1" "pending"; sample_task "2" "archived"]
               (VStr "completed"))
   + length (filter (λ task,
                       prop VUndefined "status" task ≠ VStr "pending"
                       ∧ prop VUndefined "status" task ≠ VStr "in_progress"
                       ∧ prop VUndefined "status" task ≠ VStr "completed")
               [sample_task "1" "pending"; sample_task "2" "archived"])
   = 2)%nat.
Proof.
  apply (sections_partition_known_statuses VUndefined (VStr "pending")
           (VStr "in_progress") (VStr "completed")
           [sample_task "1" "pending"; sample_task "2" "archived"]);
    discriminate.
Defined.

(** ** Colour tables *)

(** X24. [getPriorityColor] and [getStatusColor] return, for each key of
    their table, the class string the table gives it; for every other
    argument, [undefined] and [null] included, the class string of
    [medium] (of [pending]); the one exception is an argument that names a
    member of [Object.prototype], for which [table[key]] is that inherited
    member and is returned as it is. *)
Theorem colours_fall_back (v : jsval) :
  getPriorityColor (VStr "urgent") = Own "text-red-600 bg-red-50"
  ∧ getPriorityColor (VStr "high") = Own "text-orange-600 bg-orange-50"
  ∧ getPriorityColor (VStr "medium") = Own "text-yellow-600 bg-yellow-50"
  ∧ getPriorityColor (VStr "low") = Own "text-green-600 bg-green-50"
  ∧ getStatusColor (VStr "pending") = Own "text-gray-600 bg-gray-50"
  ∧ getStatusColor (VStr "in_progress") = Own "text-blue-600 bg-blue-50"
  ∧ getStatusColor (VStr "completed") = Own "text-green-600 bg-green-50"
  ∧ (to_string v ∉ ["constructor"; "hasOwnProperty"; "isPrototypeOf";
                    "propertyIsEnumerable"; "toLocaleString"; "toString";
                    "valueOf"; "__proto__"; "__defineGetter__";
                    "__defineSetter__"; "__lookupGetter__";
                    "__lookupSetter__"] →
     (to_string v ∉ ["urgent"; "high"; "medium"; "low"] →
        getPriorityColor v = Own "text-yellow-600 bg-yellow-50")
     ∧ (to_string v ∉ ["pending"; "in_progress"; "completed"] →
        getStatusColor v = Own "text-gray-600 bg-gray-50"))
  ∧ (to_string v ∈ ["constructor"; "hasOwnProperty"; "isPrototypeOf";
                    "propertyIsEnumerable"; "toLocaleString"; "toString";
                    "valueOf"; "__proto__"; "__defineGetter__";
                    "__defineSetter__"; "__lookupGetter__";
                    "__lookupSetter__"] →
     getPriorityColor v = Inherited (to_string v)
     ∧ getStatusColor v = Inherited (to_string v)).
Proof.
  do 7 (split; [by vm_compute|]).
  unfold getPriorityColor, getStatusColor, lookup_or.
  remember (to_string v) as k eqn:Ek. clear Ek. split.
  - intros Hown.
    change (k ∉ Object_prototype) in Hown.
    rewrite (bool_decide_eq_false_2 _ Hown). split.
    + intros Hk. rewrite !not_elem_of_cons in Hk.
      destruct Hk as (H1 & H2 & H3 & H4 & _).
      unfold priority_colors at 1.
      rewrite !lookup_insert_ne by (by intros <-).
      rewrite lookup_singleton_ne by (by intros <-). by vm_compute.
    + intros Hk. rewrite !not_elem_of_cons in Hk.
      destruct Hk as (H1 & H2 & H3 & _).
      unfold status_colors at 1.
      rewrite !lookup_insert_ne by (by intros <-).
      rewrite lookup_singleton_ne by (by intros <-). by vm_compute.
  - intros Hin.
    change (k ∈ Object_prototype) in Hin.
    rewrite (bool_decide_eq_true_2 _ Hin).
    unfold Object_prototype in Hin.
    repeat (apply elem_of_cons in Hin as [-> | Hin]; [by vm_compute|]).
    by apply elem_of_nil in Hin.
Qed.

Lemma colours_fall_back_witness :
  getPriorityColor VUndefined = Own "text-yellow-600 bg-yellow-50"
  ∧ getStatusColor (VStr "constructor") = Inherited "constructor".
Proof.
  destruct (colours_fall_back VUndefined) as (_ & _ & _ & _ & _ & _ & _ & Hu & _).
  destruct (colours_fall_back (VStr "constructor"))
    as (_ & _ & _ & _ & _ & _ & _ & _ & Hc).
  split.
  - apply Hu; rewrite list_elem_of_In; simpl; intuition discriminate.
  - apply Hc. rewrite list_elem_of_In. simpl. by left.
Defined.

(** ** The login form *)

Section login_form_facts.
Context {J : Type} `{!JSON J}.
Variable credentials : string → string → string.

(** X25. [handleSubmit] sends nothing for an incomplete form: with an
    empty user name or an empty password it only sets the error text, and
    the world (store and wire) stays as it is.  With both filled in it
    sets [loading], clears the error text and puts exactly one call to
    [/auth/login] on the wire, carrying the two fields. *)
Theorem handleSubmit_validates (s : Login_state) (w : world) :
  let r := handleSubmit_start (J:=J) credentials s w in
  (username (form s) = "" ∨ password (form s) = "" →
     r = (setError (VStr "Please enter both username and password") s, w, None))
  ∧ (username (form s) ≠ "" → password (form s) ≠ "" →
     ∃ c, r.2 = Some (AwaitResponse c)
          ∧ url c = "/auth/login"
          ∧ payload c = credentials (username (form s)) (password (form s))
          ∧ wire r.1.2 = (wire w ++ [ApiCall c])%list
          ∧ localStorage r.1.2 = localStorage w
          ∧ loading r.1.1 = true
          ∧ error r.1.1 = VStr "").
Proof.
  cbv zeta. unfold handleSubmit_start. split.
  - intros [Hu|Hp].
    + by rewrite Hu.
    + rewrite Hp. by rewrite orb_true_r.
  - intros Hu Hp.
    apply truthy_str_true in Hu as ->. apply truthy_str_true in Hp as ->.
    cbn [negb orb fst snd]. eexists. split; [done|].
    unfold api, request_interceptor. cbn [fst snd].
    destruct (tokenManager.getToken (localStorage w)) as [t|];
      [destruct (truthy_str t)|]; done.
Qed.

(** X26. However the login promise settles, [handleSubmit] ends with
    [loading] switched off.  It navigates to [/dashboard] only for a
    fulfilled promise whose body says [success]; in every other case it
    stays on the page, and unless [handleError] itself has thrown the error
    text it shows is not empty. *)
Theorem handleSubmit_ends_loading (success : bool) (s : Login_state)
    (p : promise J (body J)) :
  p ≠ Pending →
  let r := handleSubmit_settled success s p in
  loading r.1 = false
  ∧ ((∃ d, p = Fulfilled d) ∧ success = true →
     navigated r.1 = (navigated s ++ ["/dashboard"])%list
     ∧ error r.1 = error s ∧ r.2 = None)
  ∧ (¬ ((∃ d, p = Fulfilled d) ∧ success = true) →
     navigated r.1 = navigated s
     ∧ (r.2 = None → truthy (error r.1) = true)).
Proof.
  intros Hp. cbv zeta. unfold handleSubmit_settled.
  destruct p as [|d|e]; [done| |].
  - destruct success; simpl.
    + split; [done|]. split; [done|]. intros Hn. exfalso. apply Hn. eauto.
    + split; [done|]. split; [by intros [_ [=]]|]. intros _.
      split; [done|]. intros _. by apply js_or_truthy.
  - destruct (apiUtils.handleError e) as [info|x] eqn:He; simpl.
    + split; [done|]. split; [by intros [[d [=]] _]|]. intros _.
      split; [done|]. intros _.
      by destruct (proj2 (handleError_cases e) info He).
    + split; [done|]. split; [by intros [[d [=]] _]|]. by intros _.
Qed.

End login_form_facts.

Lemma handleSubmit_validates_witness :
  handleSubmit_start (J:=option string) sample_credentials
    (sample_form "admin" "") (sample_world ∅)
  = (setError (VStr "Please enter both username and password")
       (sample_form "admin" ""), sample_world ∅, None)
  ∧ ∃ c,
      (handleSubmit_start (J:=option string) sample_credentials
         (sample_form "admin" "admin123") (sample_world ∅)).2
      = Some (AwaitResponse c)
      ∧ payload c = "admin:admin123".
Proof.
  destruct (handleSubmit_validates (J:=option string) sample_credentials
              (sample_form "admin" "") (sample_world ∅)) as (Hv & _).
  destruct (handleSubmit_validates (J:=option string) sample_credentials
              (sample_form "admin" "admin123") (sample_world ∅)) as (_ & Hs).
  split.
  - apply Hv. by right.
  - destruct Hs as (c & Hc & _ & Hp & _); [discriminate..|].
    exists c. split; [exact Hc|exact Hp].
Defined.

Lemma handleSubmit_ends_loading_witness :
  let r :=
    handleSubmit_settled (J:=option string) false
      (setLoading true (sample_form "admin" "wrong"))
      (RejectedWith (status_error (authAPI.login_request "admin:wrong") 500
                       (Some (sample_body "")))) in
  loading r.1 = false ∧ truthy (error r.1) = true.
Proof.
  destruct (handleSubmit_ends_loading (J:=option string) false
              (setLoading true (sample_form "admin" "wrong"))
              (RejectedWith
                 (status_error (authAPI.login_request "admin:wrong") 500
                    (Some (sample_body ""))))) as (Hl & _ & Hn);
    [discriminate|].
  split; [exact Hl|].
  destruct Hn as (_ & He).
  - intros [_ [=]].
  - apply He. reflexivity.
Defined.

(** ** The plain facades *)

Section facades.
Context {J : Type} `{!JSON J}.
Implicit Types (w : world) (cfg : config) (d : body J)
  (od : option (body J)) (o : net_outcome J) (st : Z)
  (later : list (net_outcome J)).

(** X27. A facade call hands its caller [response.data] and hides an
    expired credential: answered with a 2xx response it is fulfilled with
    the body of that response; answered with a 401 while a non-empty
    refresh token is stored, then with a successful refresh and a 2xx
    response to the retry, it is fulfilled with the body of the retried
    response, the new access token is in the store, and [/login] has not
    been assigned.  The facade itself never writes to the store. *)
Theorem facade_hides_expiry w cfg rt st od od1 st2 d later :
  (200 ≤ st < 300)%Z →
  let direct := facade w cfg (Responded st od :: later) in
  let refreshed_once :=
    facade w cfg
      (Responded 401 od1 :: Responded st2 (Some d) :: Responded st od :: later)
  in
  direct.2 = Fulfilled od
  ∧ localStorage direct.1 = localStorage w
  ∧ (_retry cfg = false →
     localStorage w !! REFRESH_TOKEN_KEY = Some rt → rt ≠ "" →
     (200 ≤ st2 < 300)%Z →
     refreshed_once.2 = Fulfilled od
     ∧ localStorage refreshed_once.1
       = tokenManager.setToken (access_token d) (localStorage w)
     ∧ location refreshed_once.1 = location w).
Proof.
  intros Hst. cbv zeta. unfold facade.
  rewrite answers_fulfilled by done. cbn [fst snd].
  split; [done|]. split; [done|].
  intros Hr Hrt Hne Hst2.
  change (Responded 401 od1 :: Responded st2 (Some d) :: Responded st od
            :: later)
    with ([Responded 401 od1; Responded st2 (Some d)]
            ++ Responded st od :: later)%list.
  rewrite answers_app, (answers_refresh_retry _ _ rt) by done.
  rewrite answers_cons. cbn [fst snd].
  rewrite deliver_retried by done.
  rewrite settle_fulfilled by done. rewrite answers_settled by done.
  done.
Qed.

End facades.

Lemma facade_hides_expiry_witness :
  (authAPI_getCurrentUser (J:=option string) (sample_world sample_store)
     [Responded 401 None; Responded 200 (Some (sample_body "t1"));
      Responded 200 (Some (sample_body ""))]).2
  = Fulfilled (Some (sample_body "")).
Proof.
  destruct (facade_hides_expiry (J:=option string)
              (sample_world sample_store) getCurrentUser_request "r0" 200
              (Some (sample_body "")) None 200 (sample_body "t1") [])
    as (_ & _ & Hx); [lia|].
  destruct Hx as (Hf & _); [reflexivity|reflexivity|discriminate|lia|].
  exact Hf.
Defined.
